(** * Session5_DesignYourOwnTrigger: the trigger selection and the final results

    A shallow embedding of the notebook's three computational cells
    ([get_histograms], [analyse_events] and the "Final Results" cell) and the
    properties of its specification that can be settled on it.

    Modelling conventions.
    - Python [float]s (energies in MeV, angles, yields) are modelled as real
      numbers [R]; [math.cos], [math.sin] and [math.sqrt] are the functions
      of the same name on [R].  Rounding, NaN and infinities are outside
      this model.
    - Python [int]s are [Z]; the unsigned counters [lep_n] and [jet_n] of an
      event are [nat].
    - [hist_list] is a Python [dict] from names to [ROOT.TH1F] objects; it is
      a [gmap string TH1F].  The dict is mutated in place by [analyse_events]
      and survives an exception, so the computation is a state-and-exception
      monad over it.  Distinct names hold distinct histogram objects, as
      [get_histograms] builds them.
    - ROOT is an external library.  A [TH1F] is its fixed axis together with
      the sequence of [Fill] calls received since the last [Reset]: every
      bin content is a function of those two.  [TLorentzVector] is taken as
      an interface (a type class); the kinematics of ROOT are one instance.
    - The event tree is the finite list of the records it yields.
    - The real-number reading stands for the values.  A property that turns
      on a comparison (the cut at the threshold, the verdict at 0.14) is
      stated on the value the code computes, named by a hypothesis such as
      [total_met event = inr met] or [reduction background = r]. *)

From Stdlib Require Import Reals Lra ZArith Lia.
From stdpp Require Import base option list gmap strings pretty.

#[local] Open Scope Z_scope.
#[local] Open Scope R_scope.

(** ** Exceptions and the two monads *)

Inductive exn : Type :=
  | KeyError (key : string)
  | IndexError
  | ValueError
  | ZeroDivisionError.

(** A pure computation that may raise. *)
Definition result (A : Type) : Type := exn + A.

Definition rbind {A B : Type} (r : result A) (f : A → result B) : result B :=
  match r with
  | inl e => inl e
  | inr a => f a
  end.

(** ** ROOT objects *)

Module ROOT.

(** One call of [TH1F.Fill]: [Fill(x)] or [Fill(label, w)]. *)
Inductive fill : Type :=
  | FillValue (x : R)
  | FillLabel (label : string) (w : R).

Record TH1F : Type := mkTH1F {
  h_name : string;
  h_title : string;
  h_nbinsx : Z;
  h_xlow : R;
  h_xup : R;
  h_fills : list fill
}.

(** [ROOT.TH1F(name, title, nbinsx, xlow, xup)] *)
Definition new_TH1F (name title : string) (nbinsx : Z) (xlow xup : R) : TH1F :=
  mkTH1F name title nbinsx xlow xup [].

(** [hist.Reset()] *)
Definition Reset (h : TH1F) : TH1F :=
  mkTH1F (h_name h) (h_title h) (h_nbinsx h) (h_xlow h) (h_xup h) [].

(** [hist.Fill(x)] *)
Definition Fill (h : TH1F) (x : R) : TH1F :=
  mkTH1F (h_name h) (h_title h) (h_nbinsx h) (h_xlow h) (h_xup h)
         (h_fills h ++ [FillValue x]).

(** [hist.Fill(label, w)] *)
Definition FillL (h : TH1F) (label : string) (w : R) : TH1F :=
  mkTH1F (h_name h) (h_title h) (h_nbinsx h) (h_xlow h) (h_xup h)
         (h_fills h ++ [FillLabel label w]).

(** [hist.GetEntries()]: the number of fills since the last reset. *)
Definition GetEntries (h : TH1F) : nat := length (h_fills h).

(** Content of the bucket of an alphanumeric label: the sum of the weights
    filled under that label. *)
Fixpoint label_sum (label : string) (fs : list fill) : R :=
  match fs with
  | [] => 0
  | FillValue _ :: fs' => label_sum label fs'
  | FillLabel l w :: fs' =>
      if decide (l = label) then w + label_sum label fs'
      else label_sum label fs'
  end.

Definition label_content (label : string) (h : TH1F) : R :=
  label_sum label (h_fills h).

(** The part of [TLorentzVector] that the selection uses. *)
Class LorentzVector (V : Type) : Type := {
  SetPtEtaPhiE : R → R → R → R → V;
  Pt : V → R;
  Eta : V → R
}.

(** ROOT's own four-vector: Cartesian components. *)
Record TLorentzVector : Type := mkTLorentzVector {
  fX : R; fY : R; fZ : R; fE : R
}.

Definition TLorentzVector_SetPtEtaPhiE (pt eta phi e : R) : TLorentzVector :=
  let pt := Rabs pt in
  mkTLorentzVector (pt * cos phi) (pt * sin phi) (pt * sinh eta) e.

Definition TLorentzVector_Pt (v : TLorentzVector) : R :=
  sqrt (fX v * fX v + fY v * fY v).

Definition TLorentzVector_CosTheta (v : TLorentzVector) : R :=
  let ptot := sqrt (fX v * fX v + fY v * fY v + fZ v * fZ v) in
  if Req_dec_T ptot 0 then 1 else fZ v / ptot.

Definition TLorentzVector_Eta (v : TLorentzVector) : R :=
  let cosTheta := TLorentzVector_CosTheta v in
  if Rlt_dec (cosTheta * cosTheta) 1
  then - (1 / 2) * ln ((1 - cosTheta) / (1 + cosTheta))
  else if Req_dec_T (fZ v) 0 then 0
  else if Rlt_dec 0 (fZ v) then 10 * 10 ^ 10
  else - (10 * 10 ^ 10).

#[global] Instance TLorentzVector_LorentzVector : LorentzVector TLorentzVector := {
  SetPtEtaPhiE := TLorentzVector_SetPtEtaPhiE;
  Pt := TLorentzVector_Pt;
  Eta := TLorentzVector_Eta
}.

End ROOT.

Import ROOT.

(** The state-and-exception monad over the histogram dict. *)
Definition M (A : Type) : Type :=
  gmap string TH1F → result A * gmap string TH1F.

Definition ret {A : Type} (a : A) : M A := λ s, (inr a, s).

Definition lift {A : Type} (r : result A) : M A := λ s, (r, s).

Definition bind {A B : Type} (m : M A) (f : A → M B) : M B :=
  λ s, match m s with
       | (inl e, s') => (inl e, s')
       | (inr a, s') => f a s'
       end.

(** [let* x := m in k] sequences two statements that act on the dict;
    [let! x := r in k] sequences two pure computations that may raise. *)
Notation "'let*' x ':=' m 'in' k" := (bind m (λ x, k))
  (at level 10, x name, m at level 100, k at level 200).
Notation "'let!' x ':=' r 'in' k" := (rbind r (λ x, k))
  (at level 10, x name, r at level 100, k at level 200).

(** ** Python primitives *)

(** [l[i]] for an index [i >= 0]: [IndexError] when out of range. *)
Definition index {A : Type} (l : list A) (i : nat) : result A :=
  match l !! i with
  | Some a => inr a
  | None => inl IndexError
  end.

(** [math.sqrt(x)]: [ValueError] (math domain error) for a negative [x]. *)
Definition math_sqrt (x : R) : result R :=
  if Rlt_dec x 0 then inl ValueError else inr (sqrt x).

(** [a / b] on floats: [ZeroDivisionError] when [b] is zero. *)
Definition py_div (a b : R) : result R :=
  if Req_dec_T b 0 then inl ZeroDivisionError else inr (a / b).

(** [hist_list[key].Fill(x)]: [KeyError] when the dict has no such key. *)
Definition Fill_at (key : string) (x : R) : M unit :=
  λ hist_list,
    match hist_list !! key with
    | Some hist => (inr (), <[key := Fill hist x]> hist_list)
    | None => (inl (KeyError key), hist_list)
    end.

(** [hist_list[key].Fill(label, w)] *)
Definition FillL_at (key label : string) (w : R) : M unit :=
  λ hist_list,
    match hist_list !! key with
    | Some hist => (inr (), <[key := FillL hist label w]> hist_list)
    | None => (inl (KeyError key), hist_list)
    end.

(** ** Common variables (first code cell) *)

Definition GeV : R := 1 / 1000.
Definition fb : R := 1 / 1000.

(** ** The list of histograms (second code cell) *)

Definition bin_width : Z := 5.
Definition h_pt_min : Z := 0.
Definition h_pt_max : Z := 450.
(** [int((h_pt_max-h_pt_min)/bin_width)]: the quotient truncated to an int. *)
Definition pt_bins : Z := Z.quot (h_pt_max - h_pt_min) bin_width.

(** [SetDirectory(0)] detaches a histogram from the current ROOT file and
    leaves its axis and contents alone; it has no counterpart here. *)
Definition get_histograms : gmap string TH1F :=
  let hist_list : gmap string TH1F := ∅ in
  let hist_list := <["met_et" := new_TH1F "h_met_et" "met_et; met ET [GeV]; events" pt_bins (IZR h_pt_min) (IZR h_pt_max)]> hist_list in
  let hist_list := <["jet_n" := new_TH1F "h_jet_n" "jet multiplicity; jet multiplicity; events" 10 0 10]> hist_list in
  let hist_list := <["jet0_pt" := new_TH1F "h_jet0_pt" "leading jet pT; leading jet pT [GeV]; events" pt_bins (IZR h_pt_min) (IZR h_pt_max)]> hist_list in
  let hist_list := <["jet1_pt" := new_TH1F "h_jet1_pt" "subleading jet pT; subleading jet pT [GeV]; events" pt_bins (IZR h_pt_min) (IZR h_pt_max)]> hist_list in
  let hist_list := <["jet0_eta" := new_TH1F "h_jet0_eta" "leading jet eta; leading jet eta; events" 100 (-5) 5]> hist_list in
  let hist_list := <["jet1_eta" := new_TH1F "h_jet1_eta" "subleading jet eta; subleading jet eta; events" 100 (-5) 5]> hist_list in
  let hist_list := <["jet_dphi" := new_TH1F "h_jet_dphi" "DeltaPhi(jet0,jet1); DeltaPhi; events" 80 (-4) 4]> hist_list in
  let hist_list := <["jet_deta" := new_TH1F "h_jet_deta" "DeltaEta(jet0,jet1); DeltaEta; events" 80 0 8]> hist_list in
  let hist_list := <["dijet_m" := new_TH1F "h_dijet_m" "dijet mass; dijet mass [GeV]; events" (pt_bins * 2) (IZR h_pt_min) (IZR (h_pt_max * 2))]> hist_list in
  let hist_list := <["cutflow" := new_TH1F "cutflow" "cutflow;cut;count" 10 0 10]> hist_list in
  hist_list.

(** ** The trigger selection (third code cell) *)

(** One record of the event tree, with the branches the selection reads. *)
Record Event : Type := mkEvent {
  lep_n : nat;
  lep_pt : list R;
  lep_phi : list R;
  met_et : R;
  met_phi : R;
  jet_n : nat;
  jet_pt : list R;
  jet_eta : list R;
  jet_phi : list R;
  jet_E : list R
}.

(** [met_thresh = 200], a local of [analyse_events]. *)
Definition met_thresh : Z := 200.

(** [max_events = -1], the default of the third parameter. *)
Definition max_events_default : Z := (-1)%Z.

(** The loop [for ii in range(event.lep_n)] over the indices still to come,
    threading [(met_x, met_y)]. *)
Fixpoint lepton_loop (event : Event) (iis : list nat) (met : R * R) : result (R * R) :=
  match iis with
  | [] => inr met
  | ii :: iis' =>
      let! pt := index (lep_pt event) ii in
      let! phi := index (lep_phi event) ii in
      let met_x := met.1 + pt * cos phi in
      let! pt := index (lep_pt event) ii in
      let! phi := index (lep_phi event) ii in
      let met_y := met.2 + pt * sin phi in
      lepton_loop event iis' (met_x, met_y)
  end.

(** "calculating total met": the value of [met_et_GeV] for an event. *)
Definition total_met (event : Event) : result R :=
  let met_x := 0 in
  let met_y := 0 in
  let! met := lepton_loop event (seq 0 (lep_n event)) (met_x, met_y) in
  let met_x := met.1 + met_et event * cos (met_phi event) in
  let met_y := met.2 + met_et event * sin (met_phi event) in
  let! r := math_sqrt (met_x * met_x + met_y * met_y) in
  inr (r * GeV).

Section Selection.

Context {V : Type} `{!LorentzVector V}.

(** The block under [if event.jet_n >= 2]. *)
Definition fill_jets (event : Event) : M unit :=
  let* jet0 := lift (let! pt := index (jet_pt event) 0 in
                     let! eta := index (jet_eta event) 0 in
                     let! phi := index (jet_phi event) 0 in
                     let! e := index (jet_E event) 0 in
                     inr (SetPtEtaPhiE pt eta phi e : V)) in
  let* jet1 := lift (let! pt := index (jet_pt event) 1 in
                     let! eta := index (jet_eta event) 1 in
                     let! phi := index (jet_phi event) 1 in
                     let! e := index (jet_E event) 1 in
                     inr (SetPtEtaPhiE pt eta phi e : V)) in
  let jet0_pt_GeV := Pt jet0 * GeV in
  let jet1_pt_GeV := Pt jet1 * GeV in
  let jet0_eta := Eta jet0 in
  let jet1_eta := Eta jet1 in
  let* _ := Fill_at "jet0_pt" jet0_pt_GeV in
  let* _ := Fill_at "jet1_pt" jet1_pt_GeV in
  let* _ := Fill_at "jet0_eta" jet0_eta in
  Fill_at "jet1_eta" jet1_eta.

(** The body of [for event in tree] after the event counter: it returns
    the new value of [passed_cnt].  [continue] is the early [ret]. *)
Definition loop_body (event : Event) (passed_cnt : Z) : M Z :=
  let* met_et_GeV := lift (total_met event) in
  let* _ := FillL_at "cutflow" "total" 1 in
  let* _ := Fill_at "met_et" met_et_GeV in
  if Rlt_dec met_et_GeV (IZR met_thresh) then ret passed_cnt
  else
    let* _ := FillL_at "cutflow" (pretty met_thresh +:+ "GeVMET") 1 in
    let* _ := Fill_at "jet_n" (INR (jet_n event)) in
    let* _ := (if decide (2 ≤ jet_n event)%nat then fill_jets event else ret ()) in
    ret (passed_cnt + 1)%Z.

(** [for event in tree: if evt_cnt >= max_events: break; evt_cnt += 1; ...] *)
Fixpoint event_loop (tree : list Event) (max_events : Z)
         (passed_cnt evt_cnt : Z) : M Z :=
  match tree with
  | [] => ret passed_cnt
  | event :: tree' =>
      if decide (evt_cnt >= max_events)%Z then ret passed_cnt
      else
        let evt_cnt := (evt_cnt + 1)%Z in
        let* passed_cnt := loop_body event passed_cnt in
        event_loop tree' max_events passed_cnt evt_cnt
  end.

(** [for hname, hist in hist_list.items(): hist.Reset()] *)
Definition Reset_all : M unit := λ hist_list, (inr (), Reset <$> hist_list).

Definition analyse_events (tree : list Event) (max_events : Z) : M Z :=
  let* _ := Reset_all in
  let passed_cnt := 0%Z in
  let evt_cnt := 0%Z in
  event_loop tree max_events passed_cnt evt_cnt.

(** [analyse_events(tree, hist_list)]: the third argument left out. *)
Definition analyse_events_default (tree : list Event) : M Z :=
  analyse_events tree max_events_default.

End Selection.

(** ** Final results (last code cell) *)

Definition lumi_factor : R := 30.

(** [reduction = background/51336] *)
Definition reduction (background : R) : R := background / 51336.

(** [signal*lumi_factor/math.sqrt(background*lumi_factor)] *)
Definition significance (signal background : R) : result R :=
  let! root := math_sqrt (background * lumi_factor) in
  py_div (signal * lumi_factor) root.

Inductive verdict : Type :=
  | CannotAfford   (* " -- Sorry, we can't afford this trigger." *)
  | CanAfford.     (* " -- We can afford this trigger if it is worth the physics (good significance)!" *)

(** [if reduction > 0.14: ... else: ...] *)
Definition affordability (reduction : R) : verdict :=
  if Rgt_dec reduction (14 / 100) then CannotAfford else CanAfford.

(** What the cell prints after the two yields, in order: the significance,
    the relative background rate and the verdict.  An exception in the
    significance ends the cell before the last two are printed. *)
Record final_report : Type := mkReport {
  rep_significance : R;
  rep_reduction : R;
  rep_verdict : verdict
}.

Definition final_results (signal background : R) : result final_report :=
  let reduction := reduction background in
  let! sig := significance signal background in
  inr (mkReport sig reduction (affordability reduction)).

(** ** Vocabulary of the specification *)

(** Sum of a list of reals. *)
Definition Rsum (xs : list R) : R := foldr Rplus 0 xs.

(** The leptons of an event: the first [lep_n] entries of the two arrays. *)
Definition leptons (event : Event) : list (R * R) :=
  take (lep_n event) (zip (lep_pt event) (lep_phi event)).

(** The transverse-plane vector of a momentum [pt] at azimuth [phi]. *)
Definition transverse (p : R * R) : R * R := (p.1 * cos p.2, p.1 * sin p.2).

Definition vector_sum (vs : list (R * R)) : R * R := (Rsum vs.*1, Rsum vs.*2).

Definition magnitude (v : R * R) : R := sqrt (v.1 * v.1 + v.2 * v.2).

(** The effective missing transverse energy as the specification words it:
    the magnitude of the sum of all lepton vectors and the reported MET
    vector, times 1e-3. *)
Definition effective_met (event : Event) : R :=
  magnitude (vector_sum (transverse <$> (leptons event ++ [(met_et event, met_phi event)])))
  * (1 / 1000).

(** An event whose arrays have the lengths its counters announce. *)
Definition well_formed (event : Event) : Prop :=
  length (lep_pt event) = lep_n event ∧ length (lep_phi event) = lep_n event ∧
  length (jet_pt event) = jet_n event ∧ length (jet_eta event) = jet_n event ∧
  length (jet_phi event) = jet_n event ∧ length (jet_E event) = jet_n event.

(** The observables that [analyse_events] fills. *)
Definition filled_names : list string :=
  ["cutflow"; "met_et"; "jet_n"; "jet0_pt"; "jet1_pt"; "jet0_eta"; "jet1_eta"].

Definition jet_kinematic_names : list string :=
  ["jet0_pt"; "jet1_pt"; "jet0_eta"; "jet1_eta"].

Definition unfilled_names : list string := ["jet_dphi"; "jet_deta"; "dijet_m"].

(** The dict has an entry for every observable the selection fills. *)
Definition hists_ok (hist_list : gmap string TH1F) : Prop :=
  Forall (λ key, is_Some (hist_list !! key)) filled_names.

(** The events that pass the 200 GeV cut, on the specification's effective
    MET. *)
Definition passes (event : Event) : Prop := 200 <= effective_met event.

#[global] Instance passes_dec (event : Event) : Decision (passes event) :=
  Rle_dec 200 (effective_met event).

(** Synthetic events of the specification (energies in MeV). *)
Definition no_jets (lep_pt lep_phi : list R) (met_et met_phi : R) : Event :=
  mkEvent (length lep_pt) lep_pt lep_phi met_et met_phi 0 [] [] [] [].

(** No lepton, MET = 250 GeV at azimuth 0. *)
Definition event_met250 : Event := no_jets [] [] 250000 0.

(** One lepton of 100 GeV at azimuth pi against a MET of 100 GeV at 0. *)
Definition event_cancel : Event := no_jets [100000] [PI] 100000 0.

(** MET = 250 GeV and two jets. *)
Definition event_dijet : Event :=
  mkEvent 0 [] [] 250000 0 2 [60000; 40000] [2; -2] [0; 3] [230000; 160000].

(** ** Reasoning about statements *)

(** [keeps Rel m]: whatever its outcome, [m] takes a dict to one related to
    it by [Rel]. *)
Definition keeps {A : Type} (Rel : relation (gmap string TH1F)) (m : M A) : Prop :=
  ∀ hist_list, Rel hist_list (m hist_list).2.

(** [returns m hist_list Q]: from [hist_list], [m] raises nothing and ends
    with a value and a dict that satisfy [Q]. *)
Definition returns {A : Type} (m : M A) (hist_list : gmap string TH1F)
    (Q : A → gmap string TH1F → Prop) : Prop :=
  match m hist_list with
  | (inr a, hist_list') => Q a hist_list'
  | (inl _, _) => False
  end.

(** The histogram under [key] is the same object in the same state. *)
Definition untouched (key : string) : relation (gmap string TH1F) :=
  λ before after, after !! key = before !! key.

(** The two dicts hold the same histograms up to their contents. *)
Definition same_reset : relation (gmap string TH1F) :=
  λ before after, Reset <$> after = Reset <$> before.

(** A tree of three entries, two of which pass the cut. *)
Definition example_tree : list Event := [event_cancel; event_dijet; event_met250].

(** The values of [met_et_GeV] for the three entries, in GeV. *)
Definition example_mets : list R := [0; 250; 250].

(** Two leptons announced, one stored. *)
Definition event_short_leptons : Event :=
  mkEvent 2 [100000] [0] 250000 0 0 [] [] [] [].

(** MET = 250 GeV, two jets announced, one stored. *)
Definition event_short_jets : Event :=
  mkEvent 0 [] [] 250000 0 2 [60000] [2] [0] [230000].

(** ** The analysis cells (fifth and seventh code cells) *)

(** [a / b] on ints, the true division: [ZeroDivisionError] when [b] is
    zero, the float quotient otherwise. *)
Definition py_truediv (a b : Z) : result R :=
  if decide (b = 0)%Z then inl ZeroDivisionError else inr (IZR a / IZR b).

Section Cells.

Context {V : Type} `{!LorentzVector V}.

(** "ANALYSE MC SIGNAL", acting on [signal_hist_list]; [XSection] is the
    value of the branch of that name after [GetEntry(0)].  The result is
    the global [signal]. *)
Definition analyse_mc_signal (signal_tree : list Event) (XSection : R) : M R :=
  let total_evts := Z.of_nat (length signal_tree) in
  let xsection := XSection * fb in
  let max_evts := total_evts in
  let* scale_factor := lift (py_truediv total_evts max_evts) in
  let* passed := analyse_events signal_tree max_evts in
  let passed_signal_events := IZR passed * scale_factor in
  let signal := passed_signal_events * xsection in
  ret signal.

(** "ANALYSE BACKGROUND DATA", acting on [bg_hist_list].  The result is the
    global [background]. *)
Definition analyse_background_data (bg_tree : list Event) : M R :=
  let total_evts := Z.of_nat (length bg_tree) in
  let max_evts := total_evts in
  let* scale_factor := lift (py_truediv total_evts max_evts) in
  let* passed := analyse_events bg_tree max_evts in
  let passed_bg_events := IZR passed * scale_factor in
  let background := passed_bg_events * 18 in
  ret background.

End Cells.

(** ** Vocabulary for the contents of the histograms *)

(** A histogram with further fills appended. *)
Definition add_fills (h : TH1F) (fs : list fill) : TH1F :=
  mkTH1F (h_name h) (h_title h) (h_nbinsx h) (h_xlow h) (h_xup h) (h_fills h ++ fs).

(** Every key of the dict keeps its histogram, with fills appended. *)
Definition appended : relation (gmap string TH1F) :=
  λ before after,
    ∀ key, ∃ fs, after !! key = (λ h, add_fills h fs) <$> before !! key.

(** The events a call processes: the first [max_events] of the tree. *)
Definition processed (tree : list Event) (max_events : Z) : list Event :=
  take (Z.to_nat max_events) tree.

Section Fills.

Context {V : Type} `{!LorentzVector V}.

(** The four-vector of the jet of index [i]. *)
Definition jet (event : Event) (i : nat) : V :=
  SetPtEtaPhiE (nth i (jet_pt event) 0) (nth i (jet_eta event) 0)
               (nth i (jet_phi event) 0) (nth i (jet_E event) 0).

(** The fills a well-formed event contributes to the histogram under
    [key], in order. *)
Definition event_fills (key : string) (event : Event) : list fill :=
  if decide (key = "cutflow") then
    FillLabel "total" 1 ::
      (if decide (passes event) then [FillLabel "200GeVMET" 1] else [])
  else if decide (key = "met_et") then [FillValue (effective_met event)]
  else if decide (passes event) then
    if decide (key = "jet_n") then [FillValue (INR (jet_n event))]
    else if decide (2 ≤ jet_n event)%nat then
      if decide (key = "jet0_pt") then [FillValue (Pt (jet event 0) * GeV)]
      else if decide (key = "jet1_pt") then [FillValue (Pt (jet event 1) * GeV)]
      else if decide (key = "jet0_eta") then [FillValue (Eta (jet event 0))]
      else if decide (key = "jet1_eta") then [FillValue (Eta (jet event 1))]
      else []
    else []
  else [].

End Fills.

(** ** Vocabulary on the computed values *)

(** The cut on a value computed for [met_et_GeV]: the branch that
    [if met_et_GeV < met_thresh: continue] does not take. *)
Definition reaches_threshold (met : R) : Prop := IZR met_thresh <= met.

#[global] Instance reaches_threshold_dec (met : R) : Decision (reaches_threshold met) :=
  Rle_dec (IZR met_thresh) met.

(** [mets] lists, event by event, the value that the tree's events make
    the code compute for [met_et_GeV]. *)
Definition computed_mets (tree : list Event) (mets : list R) : Prop :=
  Forall2 (λ event met, total_met event = inr met) tree mets.

Section FillsAt.

Context {V : Type} `{!LorentzVector V}.

(** The fills an event contributes to the histogram under [key] when the
    value computed for its [met_et_GeV] is [met]. *)
Definition event_fills_at (key : string) (event : Event) (met : R) : list fill :=
  if decide (key = "cutflow") then
    FillLabel "total" 1 ::
      (if decide (reaches_threshold met) then [FillLabel "200GeVMET" 1] else [])
  else if decide (key = "met_et") then [FillValue met]
  else if decide (reaches_threshold met) then
    if decide (key = "jet_n") then [FillValue (INR (jet_n event))]
    else if decide (2 ≤ jet_n event)%nat then
      if decide (key = "jet0_pt") then [FillValue (Pt (jet event 0) * GeV)]
      else if decide (key = "jet1_pt") then [FillValue (Pt (jet event 1) * GeV)]
      else if decide (key = "jet0_eta") then [FillValue (Eta (jet event 0))]
      else if decide (key = "jet1_eta") then [FillValue (Eta (jet event 1))]
      else []
    else []
  else [].

(** The fills of a sequence of events, in order, given their computed
    values. *)
Fixpoint pass_fills (key : string) (events : list Event) (mets : list R) : list fill :=
  match events, mets with
  | event :: events', met :: mets' =>
      event_fills_at key event met ++ pass_fills key events' mets'
  | _, _ => []
  end.

End FillsAt.

(** ** Properties *)

Lemma threshold_label : pretty met_thresh +:+ "GeVMET" = "200GeVMET".
Proof. reflexivity. Qed.

Lemma Rsum_app (xs ys : list R) : Rsum (xs ++ ys) = Rsum xs + Rsum ys.
Proof.
  induction xs as [|x xs IH]; simpl.
  - lra.
  - unfold Rsum in *. simpl. rewrite IH. lra.
Qed.

Lemma vector_sum_snoc (vs : list (R * R)) (v : R * R) :
  vector_sum (vs ++ [v]) = ((vector_sum vs).1 + v.1, (vector_sum vs).2 + v.2).
Proof.
  unfold vector_sum. rewrite !fmap_app, !Rsum_app. simpl.
  f_equal; unfold Rsum; simpl; lra.
Qed.

Lemma index_Some {A : Type} (l : list A) (i : nat) (a : A) :
  l !! i = Some a → index l i = inr a.
Proof. unfold index. by intros ->. Qed.

(** The index loop adds up the lepton vectors from index [i] on. *)
Lemma lepton_loop_sum (event : Event) (n i : nat) (met : R * R) :
  (i + n ≤ length (lep_pt event))%nat →
  (i + n ≤ length (lep_phi event))%nat →
  lepton_loop event (seq i n) met =
    inr (met.1 + (vector_sum (transverse <$> take n (drop i (zip (lep_pt event) (lep_phi event))))).1,
         met.2 + (vector_sum (transverse <$> take n (drop i (zip (lep_pt event) (lep_phi event))))).2).
Proof.
  revert i met. induction n as [|n IH]; intros i [x y] Hpt Hphi.
  - simpl. unfold vector_sum, Rsum. simpl. f_equal. f_equal; lra.
  - destruct (lookup_lt_is_Some_2 (lep_pt event) i) as [pt Ept]; [lia|].
    destruct (lookup_lt_is_Some_2 (lep_phi event) i) as [phi Ephi]; [lia|].
    assert (Ez : zip (lep_pt event) (lep_phi event) !! i = Some (pt, phi)).
    { rewrite lookup_zip_with, Ept. simpl. by rewrite Ephi. }
    cbn [seq lepton_loop].
    rewrite (index_Some _ _ _ Ept), (index_Some _ _ _ Ephi). cbn [rbind].
    rewrite IH by lia.
    rewrite (drop_S _ _ _ Ez). cbn [take fmap list_fmap].
    change (transverse (pt, phi) :: ?l) with ([transverse (pt, phi)] ++ l).
    unfold vector_sum. rewrite !fmap_app, !Rsum_app.
    unfold Rsum, transverse. simpl. f_equal. f_equal; lra.
Qed.

(** *** The monad *)

Section Keeps.

Context (Rel : relation (gmap string TH1F)).
Hypothesis Rel_refl : ∀ s, Rel s s.
Hypothesis Rel_trans : ∀ s1 s2 s3, Rel s1 s2 → Rel s2 s3 → Rel s1 s3.

Lemma keeps_ret {A : Type} (a : A) : keeps Rel (ret a).
Proof. intros s. apply Rel_refl. Qed.

Lemma keeps_lift {A : Type} (r : result A) : keeps Rel (lift r).
Proof. intros s. apply Rel_refl. Qed.

Lemma keeps_bind {A B : Type} (m : M A) (f : A → M B) :
  keeps Rel m → (∀ a, keeps Rel (f a)) → keeps Rel (bind m f).
Proof.
  intros Hm Hf s. unfold bind. specialize (Hm s).
  destruct (m s) as [[e|a] s']; simpl in *; [done|].
  eapply Rel_trans; [exact Hm | apply Hf].
Qed.

End Keeps.

Lemma returns_ret {A : Type} (a : A) s (Q : A → gmap string TH1F → Prop) :
  Q a s → returns (ret a) s Q.
Proof. done. Qed.

Lemma returns_lift {A : Type} (r : result A) (a : A) s (Q : A → gmap string TH1F → Prop) :
  r = inr a → Q a s → returns (lift r) s Q.
Proof. by intros ->. Qed.

Lemma returns_bind {A B : Type} (m : M A) (f : A → M B) s (Q : B → gmap string TH1F → Prop) :
  returns m s (λ a s', returns (f a) s' Q) → returns (bind m f) s Q.
Proof. unfold returns, bind. by destruct (m s) as [[e|a] s']. Qed.

Lemma returns_mono {A : Type} (m : M A) s (Q Q' : A → gmap string TH1F → Prop) :
  (∀ a s', Q a s' → Q' a s') → returns m s Q → returns m s Q'.
Proof. unfold returns. destruct (m s) as [[e|a] s']; [done|]. auto. Qed.

Lemma returns_elim {A : Type} (m : M A) s (Q : A → gmap string TH1F → Prop) :
  returns m s Q → ∃ a s', m s = (inr a, s') ∧ Q a s'.
Proof. unfold returns. destruct (m s) as [[e|a] s']; [done|]. eauto. Qed.

(** *** Histograms and fills *)

Lemma Reset_Fill h x : Reset (Fill h x) = Reset h.
Proof. reflexivity. Qed.

Lemma Reset_FillL h label w : Reset (FillL h label w) = Reset h.
Proof. reflexivity. Qed.

Lemma Reset_Reset h : Reset (Reset h) = Reset h.
Proof. reflexivity. Qed.

Lemma Reset_fills h : h_fills (Reset h) = [].
Proof. reflexivity. Qed.

Lemma label_sum_app label fs fs' :
  label_sum label (fs ++ fs') = label_sum label fs + label_sum label fs'.
Proof.
  induction fs as [|[x|l w] fs IH]; simpl.
  - lra.
  - exact IH.
  - case_decide; rewrite IH; lra.
Qed.

Lemma label_content_FillL label l w h :
  label_content label (FillL h l w) =
    label_content label h + (if decide (l = label) then w else 0).
Proof.
  unfold label_content, FillL. simpl. rewrite label_sum_app. simpl.
  case_decide; lra.
Qed.

Lemma same_reset_refl s : same_reset s s.
Proof. reflexivity. Qed.

Lemma same_reset_trans s1 s2 s3 : same_reset s1 s2 → same_reset s2 s3 → same_reset s1 s3.
Proof. unfold same_reset. congruence. Qed.

Lemma untouched_refl key s : untouched key s s.
Proof. reflexivity. Qed.

Lemma untouched_trans key s1 s2 s3 :
  untouched key s1 s2 → untouched key s2 s3 → untouched key s1 s3.
Proof. unfold untouched. congruence. Qed.

Lemma same_reset_insert (s : gmap string TH1F) key h h' :
  s !! key = Some h → Reset h' = Reset h → same_reset s (<[key := h']> s).
Proof.
  intros Hs Hr. unfold same_reset. rewrite fmap_insert, Hr.
  apply insert_id. by rewrite lookup_fmap, Hs.
Qed.

Lemma Fill_at_same_reset key x : keeps same_reset (Fill_at key x).
Proof.
  intros s. unfold Fill_at. destruct (s !! key) as [h|] eqn:E; simpl.
  - by apply (same_reset_insert s key h).
  - apply same_reset_refl.
Qed.

Lemma FillL_at_same_reset key label w : keeps same_reset (FillL_at key label w).
Proof.
  intros s. unfold FillL_at. destruct (s !! key) as [h|] eqn:E; simpl.
  - by apply (same_reset_insert s key h).
  - apply same_reset_refl.
Qed.

Lemma Fill_at_untouched k key x : key ≠ k → keeps (untouched k) (Fill_at key x).
Proof.
  intros Hne s. unfold Fill_at, untouched. destruct (s !! key) as [h|]; simpl.
  - by rewrite lookup_insert_ne.
  - done.
Qed.

Lemma FillL_at_untouched k key label w : key ≠ k → keeps (untouched k) (FillL_at key label w).
Proof.
  intros Hne s. unfold FillL_at, untouched. destruct (s !! key) as [h|]; simpl.
  - by rewrite lookup_insert_ne.
  - done.
Qed.

Lemma Fill_at_Some key x (s : gmap string TH1F) h :
  s !! key = Some h → Fill_at key x s = (inr (), <[key := Fill h x]> s).
Proof. unfold Fill_at. by intros ->. Qed.

Lemma FillL_at_Some key label w (s : gmap string TH1F) h :
  s !! key = Some h → FillL_at key label w s = (inr (), <[key := FillL h label w]> s).
Proof. unfold FillL_at. by intros ->. Qed.

Lemma Fill_at_None key x (s : gmap string TH1F) :
  s !! key = None → Fill_at key x s = (inl (KeyError key), s).
Proof. unfold Fill_at. by intros ->. Qed.

Lemma FillL_at_None key label w (s : gmap string TH1F) :
  s !! key = None → FillL_at key label w s = (inl (KeyError key), s).
Proof. unfold FillL_at. by intros ->. Qed.

Lemma hists_ok_insert (s : gmap string TH1F) key h : hists_ok s → hists_ok (<[key := h]> s).
Proof.
  unfold hists_ok. intros Hok. eapply Forall_impl; [exact Hok|].
  intros k [h' Hk]. simpl.
  destruct (decide (key = k)) as [->|Hne].
  - rewrite lookup_insert_eq. eauto.
  - rewrite lookup_insert_ne by done. eauto.
Qed.

Lemma hists_ok_lookup (s : gmap string TH1F) key :
  hists_ok s → key ∈ filled_names → is_Some (s !! key).
Proof. unfold hists_ok. rewrite Forall_forall. auto. Qed.

Lemma returns_Fill_at key x s (Q : () → gmap string TH1F → Prop) :
  hists_ok s → key ∈ filled_names → (∀ s', hists_ok s' → Q () s') →
  returns (Fill_at key x) s Q.
Proof.
  intros Hok Hin HQ. destruct (hists_ok_lookup s key Hok Hin) as [h Hh].
  unfold returns. rewrite (Fill_at_Some _ _ _ _ Hh).
  by apply HQ, hists_ok_insert.
Qed.

Lemma returns_FillL_at key label w s (Q : () → gmap string TH1F → Prop) :
  hists_ok s → key ∈ filled_names → (∀ s', hists_ok s' → Q () s') →
  returns (FillL_at key label w) s Q.
Proof.
  intros Hok Hin HQ. destruct (hists_ok_lookup s key Hok Hin) as [h Hh].
  unfold returns. rewrite (FillL_at_Some _ _ _ _ _ Hh).
  by apply HQ, hists_ok_insert.
Qed.

Lemma get_histograms_ok : hists_ok get_histograms.
Proof.
  unfold hists_ok, filled_names. repeat constructor; by eexists.
Qed.

(** *** The effective missing transverse energy *)

Lemma math_sqrt_nonneg x : 0 <= x → math_sqrt x = inr (sqrt x).
Proof. intros Hx. unfold math_sqrt. destruct (Rlt_dec x 0); [lra | done]. Qed.

Lemma sum_squares_nonneg x y : 0 <= x * x + y * y.
Proof. nra. Qed.

(** On an event whose lepton arrays are long enough, [met_et_GeV] is the
    effective MET of the specification, and no exception is raised. *)
Lemma total_met_effective (event : Event) :
  (lep_n event ≤ length (lep_pt event))%nat →
  (lep_n event ≤ length (lep_phi event))%nat →
  total_met event = inr (effective_met event).
Proof.
  intros Hpt Hphi. unfold total_met.
  rewrite lepton_loop_sum by (simpl; lia). cbn [rbind fst snd].
  rewrite drop_0, math_sqrt_nonneg by apply sum_squares_nonneg. cbn [rbind].
  unfold effective_met, leptons, magnitude, GeV.
  rewrite fmap_app, (vector_sum_snoc _ (transverse (met_et event, met_phi event))).
  cbn [transverse fst snd]. rewrite !Rplus_0_l. reflexivity.
Qed.

Lemma total_met_well_formed (event : Event) :
  well_formed event → total_met event = inr (effective_met event).
Proof.
  intros (Hpt & Hphi & _). apply total_met_effective; lia.
Qed.

Lemma magnitude_polar (r phi : R) : magnitude (r * cos phi, r * sin phi) = Rabs r.
Proof.
  unfold magnitude. simpl. rewrite <- sqrt_Rsqr_abs. f_equal.
  pose proof (sin2_cos2 phi) as H. unfold Rsqr in *. nra.
Qed.

(** Without leptons the effective MET is the reported one. *)
Lemma effective_met_no_lepton (event : Event) :
  lep_n event = 0%nat → effective_met event = Rabs (met_et event) * (1 / 1000).
Proof.
  intros Hn. unfold effective_met, leptons. rewrite Hn. simpl.
  rewrite <- (magnitude_polar (met_et event) (met_phi event)).
  unfold vector_sum, Rsum. simpl. do 2 f_equal; f_equal; lra.
Qed.

Lemma effective_met_event_met250 : effective_met event_met250 = 250.
Proof.
  rewrite effective_met_no_lepton by reflexivity. simpl.
  rewrite Rabs_pos_eq by lra. lra.
Qed.

Lemma effective_met_event_dijet : effective_met event_dijet = 250.
Proof.
  rewrite effective_met_no_lepton by reflexivity. simpl.
  rewrite Rabs_pos_eq by lra. lra.
Qed.

Lemma effective_met_event_cancel : effective_met event_cancel = 0.
Proof.
  unfold effective_met, event_cancel, no_jets, leptons, vector_sum, magnitude, Rsum, transverse.
  simpl. rewrite cos_PI, sin_PI, cos_0, sin_0.
  replace (_ + _) with 0 by lra. rewrite sqrt_0. lra.
Qed.

Lemma well_formed_no_jets pts phis met phi :
  length pts = length phis → well_formed (no_jets pts phis met phi).
Proof. intros H. unfold well_formed, no_jets. simpl. by rewrite H. Qed.

Lemma well_formed_event_dijet : well_formed event_dijet.
Proof. by repeat split. Qed.

(** *** The selection loop *)

Section SelectionFacts.

Context {V : Type} `{!LorentzVector V}.

(** Effects of the loop on the dict: a preorder that every fill of one of
    the filled observables respects is respected by the whole loop. *)
Section LoopKeeps.

Context (Rel : relation (gmap string TH1F)).
Hypothesis Rel_refl : ∀ s, Rel s s.
Hypothesis Rel_trans : ∀ s1 s2 s3, Rel s1 s2 → Rel s2 s3 → Rel s1 s3.
Hypothesis Rel_Fill : ∀ key x, key ∈ filled_names → keeps Rel (Fill_at key x).
Hypothesis Rel_FillL : ∀ key label w, key ∈ filled_names → keeps Rel (FillL_at key label w).

#[local] Ltac step :=
  first
    [ apply (keeps_ret Rel Rel_refl)
    | apply (keeps_lift Rel Rel_refl)
    | apply Rel_Fill; unfold filled_names; set_solver
    | apply Rel_FillL; unfold filled_names; set_solver
    | apply (keeps_bind Rel Rel_trans); [| intros ?] ].

Lemma fill_jets_keeps (event : Event) : keeps Rel (fill_jets event).
Proof. unfold fill_jets. repeat step. Qed.

Lemma loop_body_keeps (event : Event) (passed_cnt : Z) :
  keeps Rel (loop_body event passed_cnt).
Proof.
  unfold loop_body.
  do 3 (apply (keeps_bind Rel Rel_trans); [step | intros ?]).
  destruct (Rlt_dec _ _); [step|].
  do 2 (apply (keeps_bind Rel Rel_trans); [step | intros ?]).
  apply (keeps_bind Rel Rel_trans); [| intros ?; step].
  case_decide; [apply fill_jets_keeps | step].
Qed.

Lemma event_loop_keeps (tree : list Event) (max_events passed_cnt evt_cnt : Z) :
  keeps Rel (event_loop tree max_events passed_cnt evt_cnt).
Proof.
  revert passed_cnt evt_cnt.
  induction tree as [|event tree IH]; intros passed_cnt evt_cnt; simpl.
  - step.
  - case_decide; [step|].
    apply (keeps_bind Rel Rel_trans); auto using loop_body_keeps.
Qed.

End LoopKeeps.

Lemma event_loop_same_reset tree max_events passed_cnt evt_cnt :
  keeps same_reset (event_loop tree max_events passed_cnt evt_cnt).
Proof.
  apply event_loop_keeps.
  - apply same_reset_refl.
  - apply same_reset_trans.
  - intros key x _. apply Fill_at_same_reset.
  - intros key label w _. apply FillL_at_same_reset.
Qed.

Lemma jet_kinematic_filled key :
  key ∈ jet_kinematic_names →
  key ∈ filled_names ∧ key ≠ "cutflow" ∧ key ≠ "met_et" ∧ key ≠ "jet_n".
Proof.
  unfold jet_kinematic_names, filled_names. intros Hkey.
  repeat (apply elem_of_cons in Hkey as [-> | Hkey];
          [split; [repeat constructor | done] |]).
  by apply elem_of_nil in Hkey.
Qed.

Lemma unfilled_not_filled key : key ∈ unfilled_names → key ∉ filled_names.
Proof.
  unfold unfilled_names, filled_names. intros Hkey.
  repeat (apply elem_of_cons in Hkey as [-> | Hkey];
          [rewrite !not_elem_of_cons; repeat split; [done.. | apply not_elem_of_nil] |]).
  by apply elem_of_nil in Hkey.
Qed.

Lemma not_filled_ne key k : k ∉ filled_names → key ∈ filled_names → key ≠ k.
Proof. intros Hk Hkey ->. done. Qed.

Lemma event_loop_untouched k tree max_events passed_cnt evt_cnt :
  k ∉ filled_names →
  keeps (untouched k) (event_loop tree max_events passed_cnt evt_cnt).
Proof.
  intros Hk. apply event_loop_keeps.
  - apply untouched_refl.
  - apply untouched_trans.
  - intros key x Hkey. apply Fill_at_untouched. by apply not_filled_ne.
  - intros key label w Hkey. apply FillL_at_untouched. by apply not_filled_ne.
Qed.

(** What [analyse_events] is, once the reset is done. *)
Lemma analyse_events_unfold tree max_events s :
  analyse_events tree max_events s = event_loop tree max_events 0 0 (Reset <$> s).
Proof. reflexivity. Qed.

Lemma Reset_all_idemp (s : gmap string TH1F) : Reset <$> (Reset <$> s) = Reset <$> s.
Proof.
  rewrite <- map_fmap_compose. apply map_fmap_ext. intros k h _. apply Reset_Reset.
Qed.

(** An event below the threshold: the body is the two unconditional fills. *)
Lemma loop_body_below (event : Event) (passed_cnt : Z) (met : R) s :
  total_met event = inr met → met < IZR met_thresh →
  loop_body event passed_cnt s =
    (let* _ := FillL_at "cutflow" "total" 1 in
     let* _ := Fill_at "met_et" met in
     ret passed_cnt) s.
Proof.
  intros Hmet Hlt. unfold loop_body, bind at 1, lift. rewrite Hmet.
  unfold bind. destruct (FillL_at _ _ _ s) as [[e|[]] s1]; [done|].
  destruct (Fill_at _ _ s1) as [[e|[]] s2]; [done|].
  destruct (Rlt_dec met (IZR met_thresh)); [done | lra].
Qed.

(** An event at or above the threshold with fewer than two jets. *)
Lemma loop_body_above_few_jets (event : Event) (passed_cnt : Z) (met : R) s :
  total_met event = inr met → IZR met_thresh <= met → (jet_n event < 2)%nat →
  loop_body event passed_cnt s =
    (let* _ := FillL_at "cutflow" "total" 1 in
     let* _ := Fill_at "met_et" met in
     let* _ := FillL_at "cutflow" "200GeVMET" 1 in
     let* _ := Fill_at "jet_n" (INR (jet_n event)) in
     ret (passed_cnt + 1)%Z) s.
Proof.
  intros Hmet Hge Hjets. unfold loop_body, bind at 1, lift. rewrite Hmet.
  rewrite threshold_label.
  unfold bind. destruct (FillL_at _ _ _ s) as [[e|[]] s1]; [done|].
  destruct (Fill_at _ _ s1) as [[e|[]] s2]; [done|].
  destruct (Rlt_dec met (IZR met_thresh)); [lra|].
  destruct (FillL_at _ _ _ s2) as [[e|[]] s3]; [done|].
  destruct (Fill_at _ _ s3) as [[e|[]] s4]; [done|].
  case_decide; [lia | done].
Qed.

Lemma fill_jets_returns (event : Event) s (Q : () → gmap string TH1F → Prop) :
  well_formed event → (2 ≤ jet_n event)%nat → hists_ok s →
  (∀ s', hists_ok s' → Q () s') →
  returns (fill_jets event) s Q.
Proof.
  intros (_ & _ & Hpt & Heta & Hphi & HE) Hjets Hok HQ.
  destruct (lookup_lt_is_Some_2 (jet_pt event) 0) as [pt0 Ept0]; [lia|].
  destruct (lookup_lt_is_Some_2 (jet_eta event) 0) as [eta0 Eeta0]; [lia|].
  destruct (lookup_lt_is_Some_2 (jet_phi event) 0) as [phi0 Ephi0]; [lia|].
  destruct (lookup_lt_is_Some_2 (jet_E event) 0) as [e0 Ee0]; [lia|].
  destruct (lookup_lt_is_Some_2 (jet_pt event) 1) as [pt1 Ept1]; [lia|].
  destruct (lookup_lt_is_Some_2 (jet_eta event) 1) as [eta1 Eeta1]; [lia|].
  destruct (lookup_lt_is_Some_2 (jet_phi event) 1) as [phi1 Ephi1]; [lia|].
  destruct (lookup_lt_is_Some_2 (jet_E event) 1) as [e1 Ee1]; [lia|].
  unfold fill_jets.
  rewrite (index_Some _ _ _ Ept0), (index_Some _ _ _ Eeta0),
    (index_Some _ _ _ Ephi0), (index_Some _ _ _ Ee0),
    (index_Some _ _ _ Ept1), (index_Some _ _ _ Eeta1),
    (index_Some _ _ _ Ephi1), (index_Some _ _ _ Ee1).
  cbn [rbind].
  apply returns_bind. eapply returns_lift; [reflexivity|].
  apply returns_bind. eapply returns_lift; [reflexivity|].
  apply returns_bind, returns_Fill_at; [done | unfold filled_names; set_solver |].
  intros s1 Hok1.
  apply returns_bind, returns_Fill_at; [done | unfold filled_names; set_solver |].
  intros s2 Hok2.
  apply returns_bind, returns_Fill_at; [done | unfold filled_names; set_solver |].
  intros s3 Hok3.
  apply returns_Fill_at; [done | unfold filled_names; set_solver | done].
Qed.

(** On a well-formed event and a dict with every filled observable, the
    body raises nothing and counts the event exactly when it passes. *)
Lemma loop_body_returns (event : Event) (passed_cnt : Z) s :
  well_formed event → hists_ok s →
  returns (loop_body event passed_cnt) s
    (λ passed_cnt' s',
       passed_cnt' = (if decide (passes event) then passed_cnt + 1 else passed_cnt)%Z ∧
       hists_ok s').
Proof.
  intros Hwf Hok. unfold loop_body.
  apply returns_bind. eapply returns_lift; [by apply total_met_well_formed|].
  apply returns_bind, returns_FillL_at; [done | unfold filled_names; set_solver |].
  intros s1 Hok1.
  apply returns_bind, returns_Fill_at; [done | unfold filled_names; set_solver |].
  intros s2 Hok2.
  change (IZR met_thresh) with 200.
  destruct (Rlt_dec (effective_met event) 200).
  { apply returns_ret. by rewrite (decide_False (P := passes event)) by (unfold passes; lra). }
  rewrite (decide_True (P := passes event)) by (unfold passes; lra).
  apply returns_bind, returns_FillL_at; [done | unfold filled_names; set_solver |].
  intros s3 Hok3.
  apply returns_bind, returns_Fill_at; [done | unfold filled_names; set_solver |].
  intros s4 Hok4.
  apply returns_bind. case_decide.
  - apply fill_jets_returns; [done..|]. intros s5 Hok5. by apply returns_ret.
  - apply returns_ret. by apply returns_ret.
Qed.

(** The number of events that pass among those the loop still processes. *)
Lemma event_loop_returns (tree : list Event) (max_events passed_cnt evt_cnt : Z) s :
  Forall well_formed tree → hists_ok s →
  returns (event_loop tree max_events passed_cnt evt_cnt) s
    (λ passed_cnt' s',
       passed_cnt' =
         (passed_cnt + Z.of_nat (length (filter passes
                                    (take (Z.to_nat (max_events - evt_cnt)) tree))))%Z ∧
       hists_ok s').
Proof.
  intros Hwf. revert passed_cnt evt_cnt s.
  induction Hwf as [|event tree Hev Hwf IH]; intros passed_cnt evt_cnt s Hok.
  - simpl. apply returns_ret. rewrite take_nil. simpl. split; [lia | done].
  - simpl. case_decide as Hbreak.
    + apply returns_ret. replace (Z.to_nat _) with 0%nat by lia. simpl.
      split; [lia | done].
    + apply returns_bind.
      eapply returns_mono; [| apply (loop_body_returns event passed_cnt s Hev Hok)].
      intros p1 s1 [-> Hok1]. simpl.
      eapply returns_mono; [| apply (IH _ (evt_cnt + 1)%Z s1 Hok1)].
      intros p2 s2 [-> Hok2]. split; [|done].
      replace (Z.to_nat (max_events - evt_cnt)) with (S (Z.to_nat (max_events - (evt_cnt + 1)))) by lia.
      cbn [take]. case_decide.
      * rewrite filter_cons_True by done. simpl. lia.
      * rewrite filter_cons_False by done. lia.
Qed.

End SelectionFacts.

(** ** The claims about the selection *)

Section SelectionClaims.

Context {V : Type} `{!LorentzVector V}.

(** C1. On an event whose lepton arrays hold at least [lep_n] entries, the
    value [met_et_GeV] computed by [analyse_events] is the magnitude of the
    transverse-plane sum of all lepton vectors [(pt cos phi, pt sin phi)]
    and the reported MET vector, times 1e-3.  With no lepton it is the
    magnitude of the reported MET times 1e-3.  For one lepton of 100 GeV at
    azimuth pi against a MET of 100 GeV at azimuth 0 it is 0, and that event
    is not counted as passed. *)
Theorem total_met_vector_sum (event : Event) :
  (lep_n event ≤ length (lep_pt event))%nat →
  (lep_n event ≤ length (lep_phi event))%nat →
  total_met event = inr (effective_met event) ∧
  (lep_n event = 0%nat → total_met event = inr (Rabs (met_et event) * (1 / 1000))) ∧
  total_met event_cancel = inr 0 ∧
  (∀ passed_cnt s, hists_ok s →
     (loop_body event_cancel passed_cnt s).1 = inr passed_cnt) ∧
  (analyse_events [event_cancel] 1 get_histograms).1 = inr 0%Z.
Proof.
  intros Hpt Hphi.
  assert (Hcancel : total_met event_cancel = inr 0).
  { rewrite <- effective_met_event_cancel. apply total_met_effective; simpl; lia. }
  assert (Hwf : well_formed event_cancel) by (by apply well_formed_no_jets).
  assert (Hfail : ¬ passes event_cancel).
  { unfold passes. rewrite effective_met_event_cancel. lra. }
  split; [by apply total_met_effective|].
  split; [intros Hn; rewrite <- effective_met_no_lepton by done;
          by apply total_met_effective|].
  split; [done|].
  split.
  - intros passed_cnt s Hok.
    destruct (returns_elim _ _ _ (loop_body_returns event_cancel passed_cnt s Hwf Hok))
      as (p & s' & -> & -> & _).
    simpl. by rewrite decide_False.
  - rewrite analyse_events_unfold.
    assert (Hok : hists_ok (Reset <$> get_histograms)).
    { unfold hists_ok, filled_names. repeat constructor; by eexists. }
    assert (Hall : Forall well_formed [event_cancel]) by (by repeat constructor).
    destruct (returns_elim _ _ _ (event_loop_returns [event_cancel] 1 0 0 _ Hall Hok))
      as (p & s' & -> & -> & _).
    simpl. by rewrite filter_cons_False.
Qed.

(** C3. For an event whose effective MET is strictly below the threshold,
    the loop body leaves [passed_cnt] as it was and leaves the four
    jet-kinematic histograms ([jet0_pt], [jet1_pt], [jet0_eta], [jet1_eta])
    untouched; when the dict has the filled observables the body returns,
    with the unchanged count. *)
Theorem below_threshold_not_counted
    (event : Event) (passed_cnt : Z) (met : R) (s : gmap string TH1F) :
  total_met event = inr met → met < IZR met_thresh →
  (∀ passed_cnt', (loop_body event passed_cnt s).1 = inr passed_cnt' →
                  passed_cnt' = passed_cnt) ∧
  (∀ key, key ∈ jet_kinematic_names →
          (loop_body event passed_cnt s).2 !! key = s !! key) ∧
  (hists_ok s → (loop_body event passed_cnt s).1 = inr passed_cnt).
Proof.
  intros Hmet Hlt. rewrite (loop_body_below event passed_cnt met s Hmet Hlt).
  split; [|split].
  - intros p'. unfold bind.
    destruct (FillL_at _ _ _ s) as [[e|[]] s1]; [done|].
    destruct (Fill_at _ _ s1) as [[e|[]] s2]; [done|].
    simpl. congruence.
  - intros key Hkey.
    assert (Hc : "cutflow" ≠ key) by (intros <-; by apply jet_kinematic_filled in Hkey as (_ & ? & _)).
    assert (Hm : "met_et" ≠ key) by (intros <-; by apply jet_kinematic_filled in Hkey as (_ & _ & ? & _)).
    apply (keeps_bind (untouched key) (untouched_trans key)).
    + by apply FillL_at_untouched.
    + intros _. apply (keeps_bind (untouched key) (untouched_trans key)).
      * by apply Fill_at_untouched.
      * intros _. apply (keeps_ret _ (untouched_refl key)).
  - intros Hok.
    assert (Hr : returns (let* _ := FillL_at "cutflow" "total" 1 in
                          let* _ := Fill_at "met_et" met in ret passed_cnt) s
                   (λ p _, p = passed_cnt)).
    { apply returns_bind, returns_FillL_at; [done | unfold filled_names; set_solver |].
      intros s1 Hok1.
      apply returns_bind, returns_Fill_at; [done | unfold filled_names; set_solver |].
      intros s2 Hok2. by apply returns_ret. }
    destruct (returns_elim _ _ _ Hr) as (p & s' & -> & ->). done.
Qed.

(** C2 (as the code behaves). Called without [max_events], the function
    uses the default -1: the guard [evt_cnt >= max_events] holds at the
    first event, so no event is processed, whatever the tree; it returns 0
    and leaves every histogram reset. *)
Theorem default_max_events_processes_nothing
    (tree : list Event) (s : gmap string TH1F) :
  analyse_events_default tree s = (inr 0%Z, Reset <$> s).
Proof.
  unfold analyse_events_default. rewrite analyse_events_unfold.
  by destruct tree as [|event tree].
Qed.

(** C6. With [max_events = 0] the function returns 0 and the dict it leaves
    is the reset one: every histogram in it has received no fill. *)
Theorem max_events_zero_empty (tree : list Event) (s : gmap string TH1F) :
  analyse_events tree 0 s = (inr 0%Z, Reset <$> s) ∧
  map_Forall (λ _ hist, h_fills hist = [] ∧ GetEntries hist = 0%nat)
             (analyse_events tree 0 s).2.
Proof.
  assert (E : analyse_events tree 0 s = (inr 0%Z, Reset <$> s)).
  { rewrite analyse_events_unfold. by destruct tree as [|event tree]. }
  split; [exact E|]. rewrite E. simpl.
  intros key hist. rewrite lookup_fmap. destruct (s !! key); [|done].
  simpl. by intros [= <-].
Qed.

(** C7. A second call on the dict left by a first call, with the same tree
    and the same [max_events], has the outcome of the first: the same
    returned count (or the same exception) and the same dict. *)
Theorem analyse_events_twice
    (tree : list Event) (max_events : Z) (s : gmap string TH1F) :
  analyse_events tree max_events (analyse_events tree max_events s).2 =
  analyse_events tree max_events s.
Proof.
  rewrite !analyse_events_unfold.
  pose proof (event_loop_same_reset tree max_events 0 0 (Reset <$> s)) as H.
  unfold same_reset in H. rewrite H, Reset_all_idemp. reflexivity.
Qed.

(** C9. [get_histograms] creates [jet_dphi], [jet_deta] and [dijet_m], and
    [analyse_events] never fills them: after any call, on any tree, any
    [max_events] and any dict, each of the three is the histogram the dict
    had under that name, reset, with no fill. *)
Theorem unfilled_histograms_stay_empty (key : string) :
  key ∈ unfilled_names →
  is_Some (get_histograms !! key) ∧
  ∀ (tree : list Event) (max_events : Z) (s : gmap string TH1F),
    (analyse_events tree max_events s).2 !! key = Reset <$> (s !! key) ∧
    ∀ hist, (analyse_events tree max_events s).2 !! key = Some hist →
            h_fills hist = [].
Proof.
  intros Hkey.
  assert (Hnot : key ∉ filled_names) by (by apply unfilled_not_filled).
  split.
  - unfold unfilled_names in Hkey.
    repeat (apply elem_of_cons in Hkey as [-> | Hkey]; [by eexists|]).
    by apply elem_of_nil in Hkey.
  - intros tree max_events s.
    assert (E : (analyse_events tree max_events s).2 !! key = Reset <$> (s !! key)).
    { rewrite analyse_events_unfold.
      rewrite (event_loop_untouched key tree max_events 0 0 Hnot (Reset <$> s)).
      apply lookup_fmap. }
    split; [exact E|]. intros hist. rewrite E.
    destruct (s !! key); [|done]. simpl. by intros [= <-].
Qed.

End SelectionClaims.

(** ** The claims about the final results *)

Lemma sqrt_pos_ne_0 x : 0 < x → sqrt x ≠ 0.
Proof. intros Hx. pose proof (sqrt_lt_R0 x Hx). lra. Qed.

Lemma significance_ok (signal background : R) :
  0 < background → ∃ sig, significance signal background = inr sig.
Proof.
  intros Hpos. unfold significance, math_sqrt, py_div, lumi_factor.
  destruct (Rlt_dec _ 0) as [Hneg|_]; [lra|]. simpl.
  destruct (Req_dec_T _ 0) as [Hz|_]; [|eauto].
  apply sqrt_pos_ne_0 in Hz; [done | lra].
Qed.

(** C4. With [L = lumi_factor], the significance is
    [signal * L / sqrt (background * L)] when [background * L] is positive.
    When it is negative [math.sqrt] raises [ValueError]; when it is zero the
    division raises [ZeroDivisionError]; in both cases the cell ends with
    the exception and prints neither a significance nor a verdict. *)
Theorem significance_defined_or_raises (signal background : R) :
  (0 < background * lumi_factor →
     significance signal background =
       inr (signal * lumi_factor / sqrt (background * lumi_factor))) ∧
  (background * lumi_factor < 0 →
     significance signal background = inl ValueError ∧
     final_results signal background = inl ValueError) ∧
  (background * lumi_factor = 0 →
     significance signal background = inl ZeroDivisionError ∧
     final_results signal background = inl ZeroDivisionError).
Proof.
  unfold final_results, significance, math_sqrt, py_div.
  split; [|split].
  - intros Hpos. destruct (Rlt_dec _ 0) as [Hneg|_]; [lra|]. simpl.
    destruct (Req_dec_T _ 0) as [Hz|_]; [|done].
    by apply sqrt_pos_ne_0 in Hpos.
  - intros Hneg. destruct (Rlt_dec _ 0) as [_|Hn]; [done | lra].
  - intros Hzero. rewrite Hzero.
    destruct (Rlt_dec 0 0) as [Hneg|_]; [lra|]. simpl.
    destruct (Req_dec_T _ 0) as [_|Hn]; [done|].
    by rewrite sqrt_0 in Hn.
Qed.

(** ** The claims at concrete inputs *)

Lemma total_met_event_cancel : total_met event_cancel = inr 0.
Proof.
  rewrite <- effective_met_event_cancel. apply total_met_effective; simpl; lia.
Qed.

Lemma total_met_event_met250 : total_met event_met250 = inr 250.
Proof.
  rewrite <- effective_met_event_met250. apply total_met_effective; simpl; lia.
Qed.

Lemma passes_event_met250 : passes event_met250.
Proof. unfold passes. rewrite effective_met_event_met250. lra. Qed.

Lemma passes_event_dijet : passes event_dijet.
Proof. unfold passes. rewrite effective_met_event_dijet. lra. Qed.

Lemma not_passes_event_cancel : ¬ passes event_cancel.
Proof. unfold passes. rewrite effective_met_event_cancel. lra. Qed.

Lemma total_met_vector_sum_witness :
  (lep_n event_cancel ≤ length (lep_pt event_cancel))%nat ∧
  (lep_n event_cancel ≤ length (lep_phi event_cancel))%nat ∧
  total_met event_cancel = inr (effective_met event_cancel).
Proof.
  assert (Hpt : (lep_n event_cancel ≤ length (lep_pt event_cancel))%nat) by (simpl; lia).
  assert (Hphi : (lep_n event_cancel ≤ length (lep_phi event_cancel))%nat) by (simpl; lia).
  split; [exact Hpt|]. split; [exact Hphi|].
  exact (proj1 (total_met_vector_sum (V := TLorentzVector) event_cancel Hpt Hphi)).
Defined.

Lemma below_threshold_not_counted_witness :
  total_met event_cancel = inr 0 ∧ 0 < IZR met_thresh ∧
  (loop_body (V := TLorentzVector) event_cancel 7 get_histograms).1 = inr 7%Z ∧
  (loop_body (V := TLorentzVector) event_cancel 7 get_histograms).2 !! "jet0_pt" =
    get_histograms !! "jet0_pt".
Proof.
  assert (Hlt : 0 < IZR met_thresh) by (unfold met_thresh; lra).
  pose proof (below_threshold_not_counted (V := TLorentzVector)
                event_cancel 7 0 get_histograms total_met_event_cancel Hlt)
    as (_ & Hjets & Hret).
  split; [exact total_met_event_cancel|]. split; [exact Hlt|].
  split; [exact (Hret get_histograms_ok)|].
  apply Hjets. unfold jet_kinematic_names. apply list_elem_of_here.
Defined.

Lemma unfilled_histograms_stay_empty_witness :
  "dijet_m" ∈ unfilled_names ∧
  (analyse_events (V := TLorentzVector) [event_dijet; event_met250] 2 get_histograms).2
    !! "dijet_m" =
  Some (new_TH1F "h_dijet_m" "dijet mass; dijet mass [GeV]; events" 180 0 900).
Proof.
  assert (Hin : "dijet_m" ∈ unfilled_names).
  { unfold unfilled_names. do 2 apply list_elem_of_further. apply list_elem_of_here. }
  split; [exact Hin|].
  destruct (unfilled_histograms_stay_empty (V := TLorentzVector) "dijet_m" Hin)
    as [_ Hpass].
  destruct (Hpass [event_dijet; event_met250] 2%Z get_histograms) as [E _].
  rewrite E. reflexivity.
Defined.

(** The default cap against an explicit one, on a single event that passes
    the cut: nothing is counted with the default, the event is counted when
    the cap is the number of entries. *)
Lemma default_cap_skips_event_met250 :
  (analyse_events_default (V := TLorentzVector) [event_met250] get_histograms).1 = inr 0%Z ∧
  (analyse_events (V := TLorentzVector) [event_met250] 1 get_histograms).1 = inr 1%Z.
Proof.
  split; [reflexivity|].
  destruct (returns_elim _ _ _
    (event_loop_returns (V := TLorentzVector) [event_met250] 1 0 0 (Reset <$> get_histograms)
       ltac:(repeat constructor; reflexivity)
       ltac:(unfold hists_ok, filled_names; repeat constructor; by eexists)))
    as (p & s' & E & -> & _).
  rewrite analyse_events_unfold, E. simpl.
  by rewrite (filter_cons_True _ _ _ passes_event_met250).
Qed.

(** The example of the specification: signal 10, background 600, L = 30
    give 300 / sqrt 18000, that is sqrt 5, about 2.236. *)
Lemma significance_example :
  significance 10 600 = inr (sqrt 5) ∧ 2236 / 1000 < sqrt 5 < 2237 / 1000.
Proof.
  assert (H5 : sqrt 5 * sqrt 5 = 5) by (apply sqrt_sqrt; lra).
  assert (Hpos : 0 < sqrt 5) by (apply sqrt_lt_R0; lra).
  assert (Hroot : sqrt (600 * lumi_factor) = 60 * sqrt 5).
  { unfold lumi_factor. replace (600 * 30) with (Rsqr 60 * 5) by (unfold Rsqr; lra).
    rewrite sqrt_mult by (unfold Rsqr; lra). rewrite sqrt_Rsqr by lra. reflexivity. }
  split.
  - unfold significance, math_sqrt, py_div.
    destruct (Rlt_dec _ 0) as [Hneg|_]; [unfold lumi_factor in Hneg; lra|]. simpl.
    rewrite Hroot. destruct (Req_dec_T _ 0) as [Hz|_]; [lra|].
    f_equal. unfold lumi_factor. apply (Rmult_eq_reg_r (60 * sqrt 5)); [|lra].
    field_simplify; lra.
  - split; nra.
Qed.

Lemma significance_defined_or_raises_witness :
  0 < 600 * lumi_factor ∧
  significance 10 600 = inr (10 * lumi_factor / sqrt (600 * lumi_factor)) ∧
  -1 * lumi_factor < 0 ∧ final_results 10 (-1) = inl ValueError ∧
  0 * lumi_factor = 0 ∧ final_results 10 0 = inl ZeroDivisionError.
Proof.
  assert (Hpos : 0 < 600 * lumi_factor) by (unfold lumi_factor; lra).
  assert (Hneg : -1 * lumi_factor < 0) by (unfold lumi_factor; lra).
  assert (Hzero : 0 * lumi_factor = 0) by lra.
  split; [exact Hpos|].
  split; [exact (proj1 (significance_defined_or_raises 10 600) Hpos)|].
  split; [exact Hneg|].
  split; [exact (proj2 (proj1 (proj2 (significance_defined_or_raises 10 (-1))) Hneg))|].
  split; [exact Hzero|].
  exact (proj2 (proj2 (proj2 (significance_defined_or_raises 10 0)) Hzero)).
Defined.

(** ** Further properties of the selection *)

Lemma add_fills_nil h : add_fills h [] = h.
Proof. destruct h. unfold add_fills. simpl. by rewrite app_nil_r. Qed.

Lemma add_fills_app h fs fs' : add_fills (add_fills h fs) fs' = add_fills h (fs ++ fs').
Proof. unfold add_fills. simpl. by rewrite app_assoc. Qed.

Lemma fmap_add_fills_nil (o : option TH1F) : (λ h, add_fills h []) <$> o = o.
Proof. destruct o; simpl; [by rewrite add_fills_nil | done]. Qed.

Lemma appended_refl s : appended s s.
Proof. intros key. exists []. by rewrite fmap_add_fills_nil. Qed.

Lemma appended_trans s1 s2 s3 : appended s1 s2 → appended s2 s3 → appended s1 s3.
Proof.
  intros H12 H23 key. destruct (H12 key) as [fs E12], (H23 key) as [fs' E23].
  exists (fs ++ fs'). rewrite E23, E12.
  destruct (s1 !! key); simpl; [by rewrite add_fills_app | done].
Qed.

Lemma appended_insert (s : gmap string TH1F) key h fs :
  s !! key = Some h → appended s (<[key := add_fills h fs]> s).
Proof.
  intros Hs k. destruct (decide (key = k)) as [<-|Hne].
  - exists fs. by rewrite lookup_insert_eq, Hs.
  - exists []. by rewrite lookup_insert_ne, fmap_add_fills_nil.
Qed.

Lemma Fill_at_appended key x : keeps appended (Fill_at key x).
Proof.
  intros s. unfold Fill_at. destruct (s !! key) as [h|] eqn:E; simpl.
  - by apply (appended_insert s key h [FillValue x]).
  - apply appended_refl.
Qed.

Lemma FillL_at_appended key label w : keeps appended (FillL_at key label w).
Proof.
  intros s. unfold FillL_at. destruct (s !! key) as [h|] eqn:E; simpl.
  - by apply (appended_insert s key h [FillLabel label w]).
  - apply appended_refl.
Qed.

Lemma take_succ_cons {A : Type} (x : A) (l : list A) (n : nat) :
  take (S n) (x :: l) = x :: take n l.
Proof. reflexivity. Qed.

Section SelectionExtras.

Context {V : Type} `{!LorentzVector V}.

Lemma event_loop_appended tree max_events passed_cnt evt_cnt :
  keeps appended (event_loop tree max_events passed_cnt evt_cnt).
Proof.
  apply event_loop_keeps.
  - apply appended_refl.
  - apply appended_trans.
  - intros key x _. apply Fill_at_appended.
  - intros key label w _. apply FillL_at_appended.
Qed.

(** X1. Accumulation only appends, whatever the input and the outcome (an
    exception included): one event leaves every key of the dict with its
    histogram and possibly further fills, and a whole call leaves every key
    with its histogram reset and then filled.  No key is added or removed;
    no name, title or axis changes. *)
Theorem fills_are_only_appended :
  (∀ (event : Event) (passed_cnt : Z) (s : gmap string TH1F) (key : string),
     ∃ fs, (loop_body event passed_cnt s).2 !! key =
             (λ h, add_fills h fs) <$> s !! key) ∧
  (∀ (tree : list Event) (max_events : Z) (s : gmap string TH1F) (key : string),
     ∃ fs, (analyse_events tree max_events s).2 !! key =
             (λ h, add_fills (Reset h) fs) <$> s !! key).
Proof.
  split.
  - intros event passed_cnt s.
    apply (loop_body_keeps appended appended_refl appended_trans).
    + intros key x _. apply Fill_at_appended.
    + intros key label w _. apply FillL_at_appended.
  - intros tree max_events s key. rewrite analyse_events_unfold.
    destruct (event_loop_appended tree max_events 0 0 (Reset <$> s) key) as [fs E].
    exists fs. rewrite E, lookup_fmap. by destruct (s !! key).
Qed.

(** One event adds at most one to the count. *)
Lemma loop_body_count (event : Event) (passed_cnt : Z) s passed_cnt' :
  (loop_body event passed_cnt s).1 = inr passed_cnt' →
  passed_cnt' = passed_cnt ∨ passed_cnt' = (passed_cnt + 1)%Z.
Proof.
  unfold loop_body, bind, lift.
  destruct (total_met event) as [e|met]; [done|].
  destruct (FillL_at _ _ _ s) as [[e|[]] s1]; [done|].
  destruct (Fill_at _ _ s1) as [[e|[]] s2]; [done|].
  destruct (Rlt_dec _ _); [simpl; intros [= <-]; by left|].
  destruct (FillL_at _ _ _ s2) as [[e|[]] s3]; [done|].
  destruct (Fill_at _ _ s3) as [[e|[]] s4]; [done|].
  destruct (_ s4) as [[e|[]] s5]; [done|].
  simpl. intros [= <-]. by right.
Qed.

Lemma event_loop_count tree max_events passed_cnt evt_cnt s passed_cnt' :
  (event_loop tree max_events passed_cnt evt_cnt s).1 = inr passed_cnt' →
  (passed_cnt ≤ passed_cnt' ≤
     passed_cnt + Z.of_nat (length (take (Z.to_nat (max_events - evt_cnt)) tree)))%Z.
Proof.
  revert passed_cnt evt_cnt s.
  induction tree as [|event tree IH]; intros passed_cnt evt_cnt s; simpl.
  - intros [= <-]. rewrite take_nil. simpl. lia.
  - case_decide as Hbreak.
    + simpl. intros [= <-]. lia.
    + replace (Z.to_nat (max_events - evt_cnt))
        with (S (Z.to_nat (max_events - (evt_cnt + 1)))) by lia.
      rewrite take_succ_cons. simpl length.
      unfold bind. destruct (loop_body event passed_cnt s) as [[e|p1] s1] eqn:E; [done|].
      intros Hrest. apply IH in Hrest.
      pose proof (loop_body_count event passed_cnt s p1) as Hp1.
      rewrite E in Hp1. specialize (Hp1 eq_refl). lia.
Qed.

(** X2. Whatever the tree and the dict, a call that returns a count
    returns one between 0 and the number of events it processed, the first
    [max_events] of the tree. *)
Theorem passed_count_bounds
    (tree : list Event) (max_events : Z) (s : gmap string TH1F) (passed_cnt : Z) :
  (analyse_events tree max_events s).1 = inr passed_cnt →
  (0 ≤ passed_cnt ≤ Z.of_nat (length (processed tree max_events)))%Z ∧
  (passed_cnt ≤ Z.of_nat (length tree))%Z ∧
  (passed_cnt ≤ Z.max 0 max_events)%Z.
Proof.
  rewrite analyse_events_unfold. intros Hret.
  apply event_loop_count in Hret. rewrite Z.sub_0_r in Hret.
  unfold processed. rewrite length_take in *. lia.
Qed.

(** The cap acts as a truncation of the tree. *)
Lemma event_loop_take tree max_events passed_cnt evt_cnt s :
  event_loop tree max_events passed_cnt evt_cnt s =
  event_loop (take (Z.to_nat (max_events - evt_cnt)) tree) max_events passed_cnt evt_cnt s.
Proof.
  revert passed_cnt evt_cnt s.
  induction tree as [|event tree IH]; intros passed_cnt evt_cnt s.
  - by rewrite take_nil.
  - destruct (decide (evt_cnt >= max_events)%Z) as [Hbreak|Hgo].
    + replace (Z.to_nat (max_events - evt_cnt)) with 0%nat by lia.
      simpl. by rewrite decide_True.
    + replace (Z.to_nat (max_events - evt_cnt))
        with (S (Z.to_nat (max_events - (evt_cnt + 1)))) by lia.
      rewrite take_succ_cons. simpl. rewrite !decide_False by done.
      unfold bind. destruct (loop_body event passed_cnt s) as [[e|p1] s1]; [done|].
      apply IH.
Qed.

(** A cap that the tree cannot reach plays no part. *)
Lemma event_loop_cap_irrelevant tree max_events max_events' passed_cnt evt_cnt s :
  (evt_cnt + Z.of_nat (length tree) ≤ max_events)%Z →
  (evt_cnt + Z.of_nat (length tree) ≤ max_events')%Z →
  event_loop tree max_events passed_cnt evt_cnt s =
  event_loop tree max_events' passed_cnt evt_cnt s.
Proof.
  revert passed_cnt evt_cnt s.
  induction tree as [|event tree IH]; intros passed_cnt evt_cnt s Hm Hm'; [done|].
  simpl in *. rewrite !decide_False by lia.
  unfold bind. destruct (loop_body event passed_cnt s) as [[e|p1] s1]; [done|].
  apply IH; lia.
Qed.

(** X3. The cap is a plain truncation, and running out of events is not an
    error: a call with a cap has the outcome of a call on the first
    [max_events] events, and any cap of at least the number of entries has
    the outcome of the cap that equals it.  Both hold for every dict and
    cover the exceptions too. *)
Theorem cap_truncates_tree
    (tree : list Event) (max_events : Z) (s : gmap string TH1F) :
  analyse_events tree max_events s =
    analyse_events (processed tree max_events) max_events s ∧
  analyse_events tree max_events s =
    analyse_events (processed tree max_events)
                   (Z.of_nat (length (processed tree max_events))) s ∧
  ((Z.of_nat (length tree) ≤ max_events)%Z →
     analyse_events tree max_events s =
       analyse_events tree (Z.of_nat (length tree)) s).
Proof.
  rewrite !analyse_events_unfold. unfold processed.
  assert (E : event_loop tree max_events 0 0 (Reset <$> s) =
              event_loop (take (Z.to_nat max_events) tree) max_events 0 0 (Reset <$> s)).
  { rewrite event_loop_take at 1. by rewrite Z.sub_0_r. }
  split; [exact E|]. split.
  - rewrite E. destruct (decide (0 ≤ max_events)%Z) as [Hpos|Hneg].
    + apply event_loop_cap_irrelevant; rewrite length_take; lia.
    + by replace (Z.to_nat max_events) with 0%nat by lia.
  - intros Hlen. apply event_loop_cap_irrelevant; lia.
Qed.

End SelectionExtras.

(** *** Exceptions of the selection *)

Lemma lepton_loop_short (event : Event) (n i : nat) (met : R * R) :
  (i ≤ length (lep_pt event))%nat → (i ≤ length (lep_phi event))%nat →
  (length (lep_pt event) < i + n ∨ length (lep_phi event) < i + n)%nat →
  lepton_loop event (seq i n) met = inl IndexError.
Proof.
  revert i met. induction n as [|n IH]; intros i met Hpt Hphi Hshort; [lia|].
  cbn [seq lepton_loop]. unfold index at 1.
  destruct (lep_pt event !! i) as [pt|] eqn:Ept; [|done].
  cbn [rbind]. unfold index at 1.
  destruct (lep_phi event !! i) as [phi|] eqn:Ephi; [|done].
  cbn [rbind]. rewrite (index_Some _ _ _ Ept), (index_Some _ _ _ Ephi). cbn [rbind].
  apply lookup_lt_Some in Ept, Ephi. apply IH; lia.
Qed.

Lemma effective_met_nonneg (event : Event) : 0 <= effective_met event.
Proof.
  unfold effective_met, magnitude.
  pose proof (sqrt_pos ((vector_sum (transverse <$> (leptons event ++ [(met_et event, met_phi event)]))).1 *
                        (vector_sum (transverse <$> (leptons event ++ [(met_et event, met_phi event)]))).1 +
                        (vector_sum (transverse <$> (leptons event ++ [(met_et event, met_phi event)]))).2 *
                        (vector_sum (transverse <$> (leptons event ++ [(met_et event, met_phi event)]))).2)).
  lra.
Qed.

(** X4. The computation of the effective MET raises [IndexError] exactly
    when one of the two lepton arrays has fewer than [lep_n] entries, and
    never another exception ([math.sqrt] is never out of its domain); a
    value it returns is the effective MET and is not negative. *)
Theorem total_met_raises_only_IndexError (event : Event) :
  (total_met event = inl IndexError ↔
     (length (lep_pt event) < lep_n event ∨ length (lep_phi event) < lep_n event)%nat) ∧
  (∀ e, total_met event = inl e → e = IndexError) ∧
  (∀ met, total_met event = inr met → met = effective_met event ∧ 0 <= met).
Proof.
  destruct (decide (lep_n event ≤ length (lep_pt event) ∧
                    lep_n event ≤ length (lep_phi event))%nat) as [[Hpt Hphi]|Hshort].
  - rewrite (total_met_effective event Hpt Hphi).
    split; [split; [done | lia]|]. split; [done|].
    intros met [= <-]. split; [done | apply effective_met_nonneg].
  - assert (E : total_met event = inl IndexError).
    { unfold total_met. rewrite lepton_loop_short; [done | lia | lia | simpl; lia]. }
    rewrite E. split; [split; [lia | done]|]. split; [by intros e [= <-] | done].
Qed.

Section SelectionExceptions.

Context {V : Type} `{!LorentzVector V}.

Lemma fill_jets_short (event : Event) s :
  (length (jet_pt event) < 2 ∨ length (jet_eta event) < 2 ∨
   length (jet_phi event) < 2 ∨ length (jet_E event) < 2)%nat →
  fill_jets event s = (inl IndexError, s).
Proof.
  intros Hshort. unfold fill_jets, bind, lift, index.
  destruct (jet_pt event !! 0%nat) eqn:Ept0; [|done].
  destruct (jet_eta event !! 0%nat) eqn:Eeta0; [|done].
  destruct (jet_phi event !! 0%nat) eqn:Ephi0; [|done].
  destruct (jet_E event !! 0%nat) eqn:EE0; [|done].
  destruct (jet_pt event !! 1%nat) eqn:Ept1; [|done].
  destruct (jet_eta event !! 1%nat) eqn:Eeta1; [|done].
  destruct (jet_phi event !! 1%nat) eqn:Ephi1; [|done].
  destruct (jet_E event !! 1%nat) eqn:EE1; [|done].
  apply lookup_lt_Some in Ept1, Eeta1, Ephi1, EE1. lia.
Qed.

(** An event at or above the threshold: the body with the cut resolved. *)
Lemma loop_body_above (event : Event) (passed_cnt : Z) (met : R) s :
  total_met event = inr met → IZR met_thresh <= met →
  loop_body event passed_cnt s =
    (let* _ := FillL_at "cutflow" "total" 1 in
     let* _ := Fill_at "met_et" met in
     let* _ := FillL_at "cutflow" "200GeVMET" 1 in
     let* _ := Fill_at "jet_n" (INR (jet_n event)) in
     let* _ := (if decide (2 ≤ jet_n event)%nat then fill_jets event else ret ()) in
     ret (passed_cnt + 1)%Z) s.
Proof.
  intros Hmet Hge. unfold loop_body, bind at 1, lift. rewrite Hmet.
  rewrite threshold_label.
  unfold bind. destruct (FillL_at _ _ _ s) as [[e|[]] s1]; [done|].
  destruct (Fill_at _ _ s1) as [[e|[]] s2]; [done|].
  destruct (Rlt_dec met (IZR met_thresh)); [lra | done].
Qed.

(** X5. A dict without the histogram [cutflow] makes the first processed
    event raise [KeyError] on that key, with the dict reset and nothing
    filled; a dict with [cutflow] and without [met_et] raises [KeyError] on
    [met_et] after the event has already been counted in the "total"
    bucket of [cutflow].  No missing entry is created. *)
Theorem missing_histogram_KeyError
    (event : Event) (tree : list Event) (max_events : Z) (met : R)
    (s : gmap string TH1F) :
  total_met event = inr met → (1 ≤ max_events)%Z →
  (s !! "cutflow" = None →
     analyse_events (event :: tree) max_events s =
       (inl (KeyError "cutflow"), Reset <$> s)) ∧
  (∀ h_cutflow, s !! "cutflow" = Some h_cutflow → s !! "met_et" = None →
     analyse_events (event :: tree) max_events s =
       (inl (KeyError "met_et"),
        <["cutflow" := FillL (Reset h_cutflow) "total" 1]> (Reset <$> s))).
Proof.
  intros Hmet Hcap. rewrite analyse_events_unfold.
  cbn [event_loop]. rewrite decide_False by lia.
  split.
  - intros Hc.
    assert (Hbody : loop_body event 0 (Reset <$> s) =
                    (inl (KeyError "cutflow"), Reset <$> s)).
    { unfold loop_body, bind, lift. rewrite Hmet.
      rewrite FillL_at_None; [done|]. by rewrite lookup_fmap, Hc. }
    unfold bind. by rewrite Hbody.
  - intros h_cutflow Hc Hm.
    assert (Hbody : loop_body event 0 (Reset <$> s) =
                    (inl (KeyError "met_et"),
                     <["cutflow" := FillL (Reset h_cutflow) "total" 1]> (Reset <$> s))).
    { unfold loop_body, bind, lift. rewrite Hmet.
      rewrite (FillL_at_Some _ _ _ _ (Reset h_cutflow)) by (by rewrite lookup_fmap, Hc).
      rewrite Fill_at_None; [done|].
      rewrite lookup_insert_ne by done. by rewrite lookup_fmap, Hm. }
    unfold bind. by rewrite Hbody.
Qed.

(** X13. When the first processed event announces more leptons than one
    of its two lepton arrays holds, the call raises [IndexError] before any
    fill: the dict is reset and the event is not even counted in the
    "total" bucket. *)
Theorem short_lepton_arrays_IndexError
    (event : Event) (tree : list Event) (max_events : Z) (s : gmap string TH1F) :
  (length (lep_pt event) < lep_n event ∨ length (lep_phi event) < lep_n event)%nat →
  (1 ≤ max_events)%Z →
  analyse_events (event :: tree) max_events s = (inl IndexError, Reset <$> s).
Proof.
  intros Hshort Hcap. rewrite analyse_events_unfold.
  cbn [event_loop]. rewrite decide_False by lia.
  assert (Hmet : total_met event = inl IndexError).
  { unfold total_met. rewrite lepton_loop_short; [done | lia | lia | simpl; lia]. }
  unfold bind, loop_body, bind, lift. by rewrite Hmet.
Qed.

(** X6. A passing event that announces two or more jets while one of its
    jet arrays holds fewer than two entries raises [IndexError]: it is not
    counted and the four jet-kinematic histograms receive nothing, but it
    has by then been recorded in both buckets of [cutflow], in [met_et] and
    in [jet_n]. *)
Theorem short_jet_arrays_IndexError
    (event : Event) (passed_cnt : Z) (met : R) (s : gmap string TH1F)
    (h_cutflow h_met h_jet_n : TH1F) :
  total_met event = inr met → IZR met_thresh <= met → (2 ≤ jet_n event)%nat →
  (length (jet_pt event) < 2 ∨ length (jet_eta event) < 2 ∨
   length (jet_phi event) < 2 ∨ length (jet_E event) < 2)%nat →
  s !! "cutflow" = Some h_cutflow → s !! "met_et" = Some h_met →
  s !! "jet_n" = Some h_jet_n →
  let out := loop_body event passed_cnt s in
  out.1 = inl IndexError ∧
  out.2 !! "cutflow" = Some (FillL (FillL h_cutflow "total" 1) "200GeVMET" 1) ∧
  out.2 !! "met_et" = Some (Fill h_met met) ∧
  out.2 !! "jet_n" = Some (Fill h_jet_n (INR (jet_n event))) ∧
  (∀ key, key ≠ "cutflow" → key ≠ "met_et" → key ≠ "jet_n" →
          out.2 !! key = s !! key).
Proof.
  intros Hmet Hge Hjets Hshort Hc Hm Hn out. subst out.
  rewrite (loop_body_above event passed_cnt met s Hmet Hge).
  unfold bind.
  rewrite (FillL_at_Some _ _ _ _ _ Hc).
  erewrite Fill_at_Some by (rewrite lookup_insert_ne by done; exact Hm).
  erewrite FillL_at_Some by (rewrite lookup_insert_ne by done; apply lookup_insert_eq).
  erewrite Fill_at_Some by (rewrite !lookup_insert_ne by done; exact Hn).
  rewrite decide_True by done. rewrite fill_jets_short by done.
  cbn [fst snd]. repeat split.
  - rewrite lookup_insert_ne by done. apply lookup_insert_eq.
  - rewrite !lookup_insert_ne by done. apply lookup_insert_eq.
  - apply lookup_insert_eq.
  - intros key Hkc Hkm Hkn. by rewrite !lookup_insert_ne.
Qed.

End SelectionExceptions.

(** *** The contents of the histograms after a call *)

Lemma index_nth (l : list R) (i : nat) :
  (i < length l)%nat → index l i = inr (nth i l 0).
Proof.
  intros Hi. destruct (lookup_lt_is_Some_2 l i Hi) as [x Hx].
  rewrite (index_Some _ _ _ Hx). by rewrite nth_lookup, Hx.
Qed.

Lemma insert_as_alter (s : gmap string TH1F) key h (f : TH1F → TH1F) :
  s !! key = Some h → <[key := f h]> s = alter f key s.
Proof.
  intros Hs. apply map_eq. intros k. destruct (decide (key = k)) as [<-|Hne].
  - by rewrite lookup_insert_eq, lookup_alter_eq, Hs.
  - by rewrite lookup_insert_ne, lookup_alter_ne.
Qed.

Lemma hists_ok_alter (s : gmap string TH1F) key (f : TH1F → TH1F) :
  hists_ok s → hists_ok (alter f key s).
Proof.
  unfold hists_ok. intros Hok. eapply Forall_impl; [exact Hok|].
  intros k [h Hk]. simpl. destruct (decide (key = k)) as [<-|Hne].
  - rewrite lookup_alter_eq, Hk. by eexists.
  - rewrite lookup_alter_ne by done. by eexists.
Qed.

Lemma returns_Fill_alter key x s (Q : () → gmap string TH1F → Prop) :
  hists_ok s → key ∈ filled_names →
  (hists_ok (alter (λ h, add_fills h [FillValue x]) key s) →
   Q () (alter (λ h, add_fills h [FillValue x]) key s)) →
  returns (Fill_at key x) s Q.
Proof.
  intros Hok Hin HQ. destruct (hists_ok_lookup s key Hok Hin) as [h Hh].
  unfold returns. rewrite (Fill_at_Some _ _ _ _ Hh).
  change (Fill h x) with ((λ h, add_fills h [FillValue x]) h).
  rewrite (insert_as_alter s key h _ Hh). by apply HQ, hists_ok_alter.
Qed.

Lemma returns_FillL_alter key label w s (Q : () → gmap string TH1F → Prop) :
  hists_ok s → key ∈ filled_names →
  (hists_ok (alter (λ h, add_fills h [FillLabel label w]) key s) →
   Q () (alter (λ h, add_fills h [FillLabel label w]) key s)) →
  returns (FillL_at key label w) s Q.
Proof.
  intros Hok Hin HQ. destruct (hists_ok_lookup s key Hok Hin) as [h Hh].
  unfold returns. rewrite (FillL_at_Some _ _ _ _ _ Hh).
  change (FillL h label w) with ((λ h, add_fills h [FillLabel label w]) h).
  rewrite (insert_as_alter s key h _ Hh). by apply HQ, hists_ok_alter.
Qed.

Lemma fmap_add_fills_app (o : option TH1F) fs fs' :
  (λ h, add_fills h fs') <$> ((λ h, add_fills h fs) <$> o) =
  (λ h, add_fills h (fs ++ fs')) <$> o.
Proof. destruct o; simpl; [by rewrite add_fills_app | done]. Qed.

Section PassContents.

Context {V : Type} `{!LorentzVector V}.

#[local] Ltac in_filled := unfold filled_names; set_solver.

#[local] Ltac by_key key :=
  destruct (decide (key = "cutflow")) as [->|?];
  [|destruct (decide (key = "met_et")) as [->|?];
    [|destruct (decide (key = "jet_n")) as [->|?];
      [|destruct (decide (key = "jet0_pt")) as [->|?];
        [|destruct (decide (key = "jet1_pt")) as [->|?];
          [|destruct (decide (key = "jet0_eta")) as [->|?];
            [|destruct (decide (key = "jet1_eta")) as [->|?]]]]]]].

#[local] Ltac lookup_alters :=
  repeat first [ rewrite lookup_alter_eq
               | rewrite lookup_alter_ne by congruence ].

#[local] Ltac close_fills :=
  rewrite ?fmap_add_fills_app, ?fmap_add_fills_nil; reflexivity.

Lemma fill_jets_fills (event : Event) s (Q : () → gmap string TH1F → Prop) :
  well_formed event → (2 ≤ jet_n event)%nat → hists_ok s →
  (∀ s', hists_ok s' →
     (∀ key, s' !! key =
        (λ h, add_fills h
           (if decide (key = "jet0_pt") then [FillValue (Pt (jet event 0) * GeV)]
            else if decide (key = "jet1_pt") then [FillValue (Pt (jet event 1) * GeV)]
            else if decide (key = "jet0_eta") then [FillValue (Eta (jet event 0))]
            else if decide (key = "jet1_eta") then [FillValue (Eta (jet event 1))]
            else [])) <$> s !! key) →
     Q () s') →
  returns (fill_jets event) s Q.
Proof.
  intros (_ & _ & Hpt & Heta & Hphi & HE) Hjets Hok HQ.
  unfold fill_jets. rewrite !index_nth by lia. cbn [rbind].
  apply returns_bind. eapply returns_lift; [reflexivity|].
  apply returns_bind. eapply returns_lift; [reflexivity|].
  fold (jet event 0). fold (jet event 1).
  apply returns_bind, returns_Fill_alter; [done | in_filled |]. intros Hok1.
  apply returns_bind, returns_Fill_alter; [done | in_filled |]. intros Hok2.
  apply returns_bind, returns_Fill_alter; [done | in_filled |]. intros Hok3.
  apply returns_Fill_alter; [done | in_filled |]. intros Hok4.
  apply HQ; [done|]. intros key.
  by_key key; lookup_alters; repeat case_decide; try congruence; close_fills.
Qed.

(** The effect of one well-formed event, key by key. *)
Lemma loop_body_fills (event : Event) (passed_cnt : Z) s :
  well_formed event → hists_ok s →
  returns (loop_body event passed_cnt) s
    (λ passed_cnt' s',
       passed_cnt' = (if decide (passes event) then passed_cnt + 1 else passed_cnt)%Z ∧
       hists_ok s' ∧
       ∀ key, s' !! key = (λ h, add_fills h (event_fills key event)) <$> s !! key).
Proof.
  intros Hwf Hok. unfold loop_body.
  apply returns_bind. eapply returns_lift; [by apply total_met_well_formed|].
  apply returns_bind, returns_FillL_alter; [done | in_filled |]. intros Hok1.
  apply returns_bind, returns_Fill_alter; [done | in_filled |]. intros Hok2.
  change (IZR met_thresh) with 200. rewrite threshold_label.
  destruct (Rlt_dec (effective_met event) 200) as [Hlt|Hge].
  { assert (Hfail : ¬ passes event) by (unfold passes; lra).
    apply returns_ret. rewrite (decide_False (P := passes event)) by done.
    split; [done|]. split; [done|]. intros key. unfold event_fills.
    rewrite (decide_False (P := passes event)) by done.
    by_key key; lookup_alters; repeat case_decide; try congruence; close_fills. }
  assert (Hpass : passes event) by (unfold passes; lra).
  apply returns_bind, returns_FillL_alter; [done | in_filled |]. intros Hok3.
  apply returns_bind, returns_Fill_alter; [done | in_filled |]. intros Hok4.
  apply returns_bind. destruct (decide (2 ≤ jet_n event)%nat) as [Hjets|Hfew].
  - apply fill_jets_fills; [done..|]. intros s5 Hok5 Hs5.
    apply returns_ret. rewrite (decide_True (P := passes event)) by done.
    split; [done|]. split; [done|]. intros key. rewrite Hs5. unfold event_fills.
    rewrite (decide_True (P := passes event)) by done.
    rewrite (decide_True (P := (2 ≤ jet_n event)%nat)) by done.
    by_key key; lookup_alters; repeat case_decide; try congruence; close_fills.
  - apply returns_ret, returns_ret.
    rewrite (decide_True (P := passes event)) by done.
    split; [done|]. split; [done|]. intros key. unfold event_fills.
    rewrite (decide_True (P := passes event)) by done.
    rewrite (decide_False (P := (2 ≤ jet_n event)%nat)) by done.
    by_key key; lookup_alters; repeat case_decide; try congruence; close_fills.
Qed.

Lemma event_loop_fills (tree : list Event) (max_events passed_cnt evt_cnt : Z) s :
  Forall well_formed tree → hists_ok s →
  returns (event_loop tree max_events passed_cnt evt_cnt) s
    (λ passed_cnt' s',
       passed_cnt' =
         (passed_cnt + Z.of_nat (length (filter passes
                          (take (Z.to_nat (max_events - evt_cnt)) tree))))%Z ∧
       ∀ key, s' !! key =
         (λ h, add_fills h
                 (take (Z.to_nat (max_events - evt_cnt)) tree ≫= event_fills key))
           <$> s !! key).
Proof.
  intros Hwf. revert passed_cnt evt_cnt s.
  induction Hwf as [|event tree Hev Hwf IH]; intros passed_cnt evt_cnt s Hok.
  - simpl. apply returns_ret. rewrite take_nil. simpl. split; [lia|].
    intros key. by rewrite fmap_add_fills_nil.
  - simpl. case_decide as Hbreak.
    + apply returns_ret. replace (Z.to_nat _) with 0%nat by lia. simpl.
      split; [lia|]. intros key. by rewrite fmap_add_fills_nil.
    + apply returns_bind.
      eapply returns_mono; [| apply (loop_body_fills event passed_cnt s Hev Hok)].
      intros p1 s1 (-> & Hok1 & Hs1). simpl.
      eapply returns_mono; [| apply (IH _ (evt_cnt + 1)%Z s1 Hok1)].
      intros p2 s2 (-> & Hs2).
      replace (Z.to_nat (max_events - evt_cnt))
        with (S (Z.to_nat (max_events - (evt_cnt + 1)))) by lia.
      rewrite take_succ_cons. split.
      * case_decide.
        -- rewrite filter_cons_True by done. simpl. lia.
        -- rewrite filter_cons_False by done. lia.
      * intros key. rewrite Hs2, Hs1, fmap_add_fills_app. reflexivity.
Qed.

(** The whole call on well-formed events and a dict with the filled
    observables. *)
Lemma analyse_events_fills (tree : list Event) (max_events : Z) s :
  Forall well_formed tree → hists_ok s →
  ∃ s', analyse_events tree max_events s =
          (inr (Z.of_nat (length (filter passes (processed tree max_events)))), s') ∧
        ∀ key, s' !! key =
          (λ h, add_fills (Reset h) (processed tree max_events ≫= event_fills key))
            <$> s !! key.
Proof.
  intros Hwf Hok. rewrite analyse_events_unfold. unfold processed.
  assert (Hok' : hists_ok (Reset <$> s)).
  { unfold hists_ok in *. eapply Forall_impl; [exact Hok|].
    intros key [h Hh]. simpl. rewrite lookup_fmap, Hh. by eexists. }
  destruct (returns_elim _ _ _ (event_loop_fills tree max_events 0 0 _ Hwf Hok'))
    as (p & s' & -> & -> & Hs').
  rewrite Z.sub_0_r in *. exists s'. split; [done|].
  intros key. rewrite Hs', lookup_fmap. by destruct (s !! key).
Qed.

End PassContents.

(** *** Counting the entries *)

Lemma label_content_add_fills_Reset label h fs :
  label_content label (add_fills (Reset h) fs) = label_sum label fs.
Proof. reflexivity. Qed.

Lemma GetEntries_add_fills_Reset h fs :
  GetEntries (add_fills (Reset h) fs) = length fs.
Proof. reflexivity. Qed.

Section Cutflow.

Context {V : Type} `{!LorentzVector V}.

Lemma cutflow_total (l : list Event) :
  label_sum "total" (l ≫= event_fills "cutflow") = INR (length l).
Proof.
  induction l as [|ev l IH]; [done|].
  rewrite bind_cons, label_sum_app, IH. cbn [length]. rewrite S_INR. unfold event_fills.
  rewrite decide_True by done. simpl.
  case_decide; simpl; repeat case_decide; try congruence; lra.
Qed.

Lemma cutflow_threshold (l : list Event) :
  label_sum "200GeVMET" (l ≫= event_fills "cutflow") = INR (length (filter passes l)).
Proof.
  induction l as [|ev l IH]; [done|].
  rewrite bind_cons, label_sum_app, IH. unfold event_fills.
  rewrite decide_True by done.
  destruct (decide (passes ev)) as [Hp|Hp].
  - rewrite filter_cons_True by done. cbn [length]. rewrite S_INR. simpl.
    repeat case_decide; try congruence; lra.
  - rewrite filter_cons_False by done. simpl.
    repeat case_decide; try congruence; lra.
Qed.

Lemma cutflow_length (l : list Event) :
  length (l ≫= event_fills "cutflow") = (length l + length (filter passes l))%nat.
Proof.
  induction l as [|ev l IH]; [done|].
  rewrite bind_cons, length_app, IH. unfold event_fills.
  rewrite decide_True by done.
  destruct (decide (passes ev)) as [Hp|Hp].
  - rewrite filter_cons_True by done. simpl. lia.
  - rewrite filter_cons_False by done. simpl. lia.
Qed.

Lemma met_et_length (l : list Event) :
  length (l ≫= event_fills "met_et") = length l.
Proof.
  induction l as [|ev l IH]; [done|].
  rewrite bind_cons, length_app, IH. unfold event_fills.
  rewrite decide_False by done. by rewrite decide_True by done.
Qed.

Lemma jet_n_length (l : list Event) :
  length (l ≫= event_fills "jet_n") = length (filter passes l).
Proof.
  induction l as [|ev l IH]; [done|].
  rewrite bind_cons, length_app, IH. unfold event_fills.
  rewrite !decide_False by done.
  destruct (decide (passes ev)) as [Hp|Hp].
  - rewrite filter_cons_True by done. by rewrite decide_True by done.
  - by rewrite filter_cons_False by done.
Qed.

(** X8. After a call on well-formed events and a dict with the filled
    observables, the books agree: the "total" bucket of [cutflow] and the
    entries of [met_et] count the processed events, and the "200GeVMET"
    bucket and the entries of [jet_n] are the returned count, which is at
    most the "total" bucket. *)
Theorem cutflow_agrees_with_count
    (tree : list Event) (max_events : Z) (s : gmap string TH1F) :
  Forall well_formed tree → hists_ok s →
  ∃ (passed_cnt : nat) (h_cutflow h_met h_jet_n : TH1F),
    (analyse_events tree max_events s).1 = inr (Z.of_nat passed_cnt) ∧
    (analyse_events tree max_events s).2 !! "cutflow" = Some h_cutflow ∧
    (analyse_events tree max_events s).2 !! "met_et" = Some h_met ∧
    (analyse_events tree max_events s).2 !! "jet_n" = Some h_jet_n ∧
    label_content "total" h_cutflow = INR (length (processed tree max_events)) ∧
    label_content "200GeVMET" h_cutflow = INR passed_cnt ∧
    GetEntries h_cutflow = (length (processed tree max_events) + passed_cnt)%nat ∧
    GetEntries h_met = length (processed tree max_events) ∧
    GetEntries h_jet_n = passed_cnt ∧
    (passed_cnt ≤ length (processed tree max_events))%nat.
Proof.
  intros Hwf Hok.
  destruct (analyse_events_fills tree max_events s Hwf Hok) as (s' & -> & Hs').
  destruct (hists_ok_lookup s "cutflow" Hok) as [hc Hc]; [unfold filled_names; set_solver|].
  destruct (hists_ok_lookup s "met_et" Hok) as [hm Hm]; [unfold filled_names; set_solver|].
  destruct (hists_ok_lookup s "jet_n" Hok) as [hn Hn]; [unfold filled_names; set_solver|].
  eexists _, _, _, _. cbn [fst snd].
  split; [reflexivity|].
  split; [by rewrite Hs', Hc|]. split; [by rewrite Hs', Hm|]. split; [by rewrite Hs', Hn|].
  rewrite !label_content_add_fills_Reset, !GetEntries_add_fills_Reset.
  rewrite cutflow_total, cutflow_threshold, cutflow_length, met_et_length, jet_n_length.
  repeat split. apply length_filter.
Qed.

End Cutflow.

(** *** The analysis cells *)

Lemma py_truediv_self (n : Z) : n ≠ 0%Z → py_truediv n n = inr 1.
Proof.
  intros Hn. unfold py_truediv. rewrite decide_False by done.
  f_equal. apply Rinv_r. by apply not_0_IZR.
Qed.

Lemma processed_all (tree : list Event) :
  processed tree (Z.of_nat (length tree)) = tree.
Proof. unfold processed. rewrite Nat2Z.id. by apply take_ge. Qed.

Section CellFacts.

Context {V : Type} `{!LorentzVector V}.

(** X9. On a tree without entries both analysis cells raise
    [ZeroDivisionError] when they compute [total_evts/max_evts], before
    [analyse_events] is called: the dict is left as it was, not even
    reset. *)
Theorem analysis_cells_empty_tree (XSection : R) (s : gmap string TH1F) :
  analyse_mc_signal [] XSection s = (inl ZeroDivisionError, s) ∧
  analyse_background_data [] s = (inl ZeroDivisionError, s).
Proof. split; reflexivity. Qed.

End CellFacts.

(** *** The significance *)

(** X12. For positive yields the significance is positive, and more signal
    or less background never lowers it. *)
Theorem significance_monotone (signal signal' background background' : R) :
  0 < signal <= signal' → 0 < background' <= background →
  ∃ x x', significance signal background = inr x ∧
          significance signal' background' = inr x' ∧
          0 < x <= x'.
Proof.
  intros [Hs Hss] [Hb Hbb].
  assert (Hr' : 0 < sqrt (background' * lumi_factor)).
  { apply sqrt_lt_R0. unfold lumi_factor. lra. }
  assert (Hrr : sqrt (background' * lumi_factor) <= sqrt (background * lumi_factor)).
  { apply sqrt_le_1; unfold lumi_factor; lra. }
  assert (Hr : 0 < sqrt (background * lumi_factor)) by lra.
  unfold significance, math_sqrt, py_div.
  destruct (Rlt_dec (background * lumi_factor) 0) as [Hneg|_];
    [unfold lumi_factor in Hneg; lra|].
  destruct (Rlt_dec (background' * lumi_factor) 0) as [Hneg|_];
    [unfold lumi_factor in Hneg; lra|].
  cbn [rbind].
  destruct (Req_dec_T (sqrt (background * lumi_factor)) 0) as [Hz|_]; [lra|].
  destruct (Req_dec_T (sqrt (background' * lumi_factor)) 0) as [Hz|_]; [lra|].
  eexists _, _. split; [reflexivity|]. split; [reflexivity|].
  pose proof (Rinv_0_lt_compat _ Hr) as Hi.
  pose proof (Rinv_0_lt_compat _ Hr') as Hi'.
  pose proof (Rinv_le_contravar _ _ Hr' Hrr) as Hii.
  unfold Rdiv, lumi_factor in *. split; nra.
Qed.

(** *** The further properties at concrete inputs *)

Lemma well_formed_example_tree : Forall well_formed example_tree.
Proof. repeat constructor; reflexivity. Qed.

Lemma filter_passes_example_tree :
  filter passes example_tree = [event_dijet; event_met250].
Proof.
  unfold example_tree.
  rewrite (filter_cons_False _ _ _ not_passes_event_cancel).
  rewrite (filter_cons_True _ _ _ passes_event_dijet).
  by rewrite (filter_cons_True _ _ _ passes_event_met250).
Qed.

Lemma example_tree_count :
  (analyse_events (V := TLorentzVector) example_tree 5 get_histograms).1 = inr 2%Z.
Proof.
  destruct (analyse_events_fills (V := TLorentzVector) example_tree 5 get_histograms
              well_formed_example_tree get_histograms_ok) as (s' & -> & _).
  change (processed example_tree 5) with example_tree.
  by rewrite filter_passes_example_tree.
Qed.

Lemma total_met_event_short_jets : total_met event_short_jets = inr 250.
Proof.
  assert (E : effective_met event_short_jets = 250).
  { rewrite effective_met_no_lepton by reflexivity. simpl.
    rewrite Rabs_pos_eq by lra. lra. }
  rewrite <- E. apply total_met_effective; simpl; lia.
Qed.

Lemma passed_count_bounds_witness :
  (analyse_events (V := TLorentzVector) example_tree 5 get_histograms).1 = inr 2%Z ∧
  (0 ≤ 2 ≤ Z.of_nat (length (processed example_tree 5)))%Z.
Proof.
  split; [exact example_tree_count|].
  exact (proj1 (passed_count_bounds (V := TLorentzVector)
                  example_tree 5 get_histograms 2 example_tree_count)).
Defined.

Lemma cap_truncates_tree_witness :
  (Z.of_nat (length example_tree) ≤ 5)%Z ∧
  analyse_events (V := TLorentzVector) example_tree 5 get_histograms =
    analyse_events (V := TLorentzVector) example_tree 3 get_histograms.
Proof.
  assert (Hlen : (Z.of_nat (length example_tree) ≤ 5)%Z) by (simpl; lia).
  split; [exact Hlen|].
  exact (proj2 (proj2 (cap_truncates_tree (V := TLorentzVector)
                         example_tree 5 get_histograms)) Hlen).
Defined.

Lemma total_met_raises_only_IndexError_witness :
  (length (lep_pt event_short_leptons) < lep_n event_short_leptons)%nat ∧
  total_met event_short_leptons = inl IndexError.
Proof.
  assert (Hshort : (length (lep_pt event_short_leptons) < lep_n event_short_leptons)%nat)
    by (simpl; lia).
  split; [exact Hshort|].
  exact (proj2 (proj1 (total_met_raises_only_IndexError event_short_leptons))
               (or_introl Hshort)).
Defined.

Lemma short_lepton_arrays_IndexError_witness :
  (length (lep_pt event_short_leptons) < lep_n event_short_leptons)%nat ∧ (1 ≤ 2)%Z ∧
  analyse_events (V := TLorentzVector) [event_short_leptons; event_met250] 2 get_histograms =
    (inl IndexError, Reset <$> get_histograms).
Proof.
  assert (Hshort : (length (lep_pt event_short_leptons) < lep_n event_short_leptons)%nat)
    by (simpl; lia).
  assert (Hcap : (1 ≤ 2)%Z) by lia.
  split; [exact Hshort|]. split; [exact Hcap|].
  exact (short_lepton_arrays_IndexError (V := TLorentzVector)
           event_short_leptons [event_met250] 2 get_histograms (or_introl Hshort) Hcap).
Defined.

Lemma missing_histogram_KeyError_witness :
  total_met event_met250 = inr 250 ∧ (1 ≤ 1)%Z ∧
  (∅ : gmap string TH1F) !! "cutflow" = None ∧
  analyse_events (V := TLorentzVector) [event_met250] 1 ∅ =
    (inl (KeyError "cutflow"), Reset <$> ∅).
Proof.
  assert (Hcap : (1 ≤ 1)%Z) by lia.
  split; [exact total_met_event_met250|]. split; [exact Hcap|].
  split; [reflexivity|].
  exact (proj1 (missing_histogram_KeyError (V := TLorentzVector)
                  event_met250 [] 1 250 ∅ total_met_event_met250 Hcap) eq_refl).
Defined.

Lemma short_jet_arrays_IndexError_witness :
  total_met event_short_jets = inr 250 ∧ IZR met_thresh <= 250 ∧
  (2 ≤ jet_n event_short_jets)%nat ∧ (length (jet_pt event_short_jets) < 2)%nat ∧
  (loop_body (V := TLorentzVector) event_short_jets 0 get_histograms).1 = inl IndexError.
Proof.
  assert (Hge : IZR met_thresh <= 250) by (unfold met_thresh; lra).
  assert (Hjets : (2 ≤ jet_n event_short_jets)%nat) by (simpl; lia).
  assert (Hshort : (length (jet_pt event_short_jets) < 2)%nat) by (simpl; lia).
  split; [exact total_met_event_short_jets|]. split; [exact Hge|].
  split; [exact Hjets|]. split; [exact Hshort|].
  exact (proj1 (short_jet_arrays_IndexError (V := TLorentzVector)
                  event_short_jets 0 250 get_histograms _ _ _
                  total_met_event_short_jets Hge Hjets (or_introl Hshort)
                  eq_refl eq_refl eq_refl)).
Defined.

Lemma cutflow_agrees_with_count_witness :
  Forall well_formed example_tree ∧ hists_ok get_histograms ∧
  ∃ (passed_cnt : nat) (h_cutflow : TH1F),
    (analyse_events (V := TLorentzVector) example_tree 5 get_histograms).1 =
      inr (Z.of_nat passed_cnt) ∧
    (analyse_events (V := TLorentzVector) example_tree 5 get_histograms).2 !! "cutflow" =
      Some h_cutflow ∧
    label_content "200GeVMET" h_cutflow = INR passed_cnt.
Proof.
  split; [exact well_formed_example_tree|]. split; [exact get_histograms_ok|].
  destruct (cutflow_agrees_with_count (V := TLorentzVector) example_tree 5 get_histograms
              well_formed_example_tree get_histograms_ok)
    as (n & hc & hm & hn & Hret & Hc & _ & _ & _ & Hthr & _).
  exists n, hc. split; [exact Hret|]. split; [exact Hc | exact Hthr].
Defined.

Lemma significance_monotone_witness :
  0 < 10 <= 20 ∧ 0 < 300 <= 600 ∧
  ∃ x x', significance 10 600 = inr x ∧ significance 20 300 = inr x' ∧ 0 < x <= x'.
Proof.
  assert (Hs : 0 < 10 <= 20) by lra.
  assert (Hb : 0 < 300 <= 600) by lra.
  split; [exact Hs|]. split; [exact Hb|].
  exact (significance_monotone 10 20 600 300 Hs Hb).
Defined.

(** ** The selection on the computed values *)

Lemma computed_mets_length tree mets : computed_mets tree mets → length mets = length tree.
Proof. intros H. symmetry. by apply Forall2_length in H. Qed.

Section ComputedPass.

Context {V : Type} `{!LorentzVector V}.

#[local] Ltac in_filled := unfold filled_names; set_solver.

#[local] Ltac by_key key :=
  destruct (decide (key = "cutflow")) as [->|?];
  [|destruct (decide (key = "met_et")) as [->|?];
    [|destruct (decide (key = "jet_n")) as [->|?];
      [|destruct (decide (key = "jet0_pt")) as [->|?];
        [|destruct (decide (key = "jet1_pt")) as [->|?];
          [|destruct (decide (key = "jet0_eta")) as [->|?];
            [|destruct (decide (key = "jet1_eta")) as [->|?]]]]]]].

#[local] Ltac lookup_alters :=
  repeat first [ rewrite lookup_alter_eq
               | rewrite lookup_alter_ne by congruence ].

#[local] Ltac close_fills :=
  rewrite ?fmap_add_fills_app, ?fmap_add_fills_nil; reflexivity.

(** The effect of one event, key by key, on the value computed for its
    [met_et_GeV]. *)
Lemma loop_body_fills_at (event : Event) (passed_cnt : Z) (met : R) s :
  total_met event = inr met → well_formed event → hists_ok s →
  returns (loop_body event passed_cnt) s
    (λ passed_cnt' s',
       passed_cnt' =
         (if decide (reaches_threshold met) then passed_cnt + 1 else passed_cnt)%Z ∧
       hists_ok s' ∧
       ∀ key, s' !! key = (λ h, add_fills h (event_fills_at key event met)) <$> s !! key).
Proof.
  intros Hmet Hwf Hok. unfold loop_body.
  apply returns_bind. eapply returns_lift; [exact Hmet|].
  apply returns_bind, returns_FillL_alter; [done | in_filled |]. intros Hok1.
  apply returns_bind, returns_Fill_alter; [done | in_filled |]. intros Hok2.
  rewrite threshold_label.
  destruct (Rlt_dec met (IZR met_thresh)) as [Hlt|Hge].
  { assert (Hfail : ¬ reaches_threshold met) by (unfold reaches_threshold; lra).
    apply returns_ret. rewrite (decide_False (P := reaches_threshold met)) by done.
    split; [done|]. split; [done|]. intros key. unfold event_fills_at.
    rewrite (decide_False (P := reaches_threshold met)) by done.
    by_key key; lookup_alters; repeat case_decide; try congruence; close_fills. }
  assert (Hpass : reaches_threshold met) by (unfold reaches_threshold; lra).
  apply returns_bind, returns_FillL_alter; [done | in_filled |]. intros Hok3.
  apply returns_bind, returns_Fill_alter; [done | in_filled |]. intros Hok4.
  apply returns_bind. destruct (decide (2 ≤ jet_n event)%nat) as [Hjets|Hfew].
  - apply fill_jets_fills; [done..|]. intros s5 Hok5 Hs5.
    apply returns_ret. rewrite (decide_True (P := reaches_threshold met)) by done.
    split; [done|]. split; [done|]. intros key. rewrite Hs5. unfold event_fills_at.
    rewrite (decide_True (P := reaches_threshold met)) by done.
    rewrite (decide_True (P := (2 ≤ jet_n event)%nat)) by done.
    by_key key; lookup_alters; repeat case_decide; try congruence; close_fills.
  - apply returns_ret, returns_ret.
    rewrite (decide_True (P := reaches_threshold met)) by done.
    split; [done|]. split; [done|]. intros key. unfold event_fills_at.
    rewrite (decide_True (P := reaches_threshold met)) by done.
    rewrite (decide_False (P := (2 ≤ jet_n event)%nat)) by done.
    by_key key; lookup_alters; repeat case_decide; try congruence; close_fills.
Qed.

Lemma event_loop_fills_at (tree : list Event) (mets : list R)
    (max_events passed_cnt evt_cnt : Z) s :
  computed_mets tree mets → Forall well_formed tree → hists_ok s →
  returns (event_loop tree max_events passed_cnt evt_cnt) s
    (λ passed_cnt' s',
       passed_cnt' =
         (passed_cnt + Z.of_nat (length (filter reaches_threshold
                          (take (Z.to_nat (max_events - evt_cnt)) mets))))%Z ∧
       ∀ key, s' !! key =
         (λ h, add_fills h
                 (pass_fills key (take (Z.to_nat (max_events - evt_cnt)) tree)
                                 (take (Z.to_nat (max_events - evt_cnt)) mets)))
           <$> s !! key).
Proof.
  intros Hco. revert passed_cnt evt_cnt s.
  induction Hco as [|event met tree mets Hmet Hco IH]; intros passed_cnt evt_cnt s Hwf Hok.
  - simpl. apply returns_ret. rewrite !take_nil. simpl. split; [lia|].
    intros key. by rewrite fmap_add_fills_nil.
  - apply Forall_cons in Hwf as [Hev Hwf].
    simpl. case_decide as Hbreak.
    + apply returns_ret. replace (Z.to_nat _) with 0%nat by lia. simpl.
      split; [lia|]. intros key. by rewrite fmap_add_fills_nil.
    + apply returns_bind.
      eapply returns_mono; [| apply (loop_body_fills_at event passed_cnt met s Hmet Hev Hok)].
      intros p1 s1 (-> & Hok1 & Hs1). simpl.
      eapply returns_mono; [| apply (IH _ (evt_cnt + 1)%Z s1 Hwf Hok1)].
      intros p2 s2 (-> & Hs2).
      replace (Z.to_nat (max_events - evt_cnt))
        with (S (Z.to_nat (max_events - (evt_cnt + 1)))) by lia.
      rewrite !take_succ_cons. split.
      * case_decide.
        -- rewrite filter_cons_True by done. simpl. lia.
        -- rewrite filter_cons_False by done. lia.
      * intros key. rewrite Hs2, Hs1, fmap_add_fills_app. reflexivity.
Qed.

Lemma hists_ok_Reset s : hists_ok s → hists_ok (Reset <$> s).
Proof.
  unfold hists_ok. intros Hok. eapply Forall_impl; [exact Hok|].
  intros key [h Hh]. simpl. rewrite lookup_fmap, Hh. by eexists.
Qed.

(** The whole call, on the values computed for the events. *)
Lemma analyse_events_fills_at (tree : list Event) (mets : list R) (max_events : Z) s :
  computed_mets tree mets → Forall well_formed tree → hists_ok s →
  ∃ s', analyse_events tree max_events s =
          (inr (Z.of_nat (length (filter reaches_threshold
                                    (take (Z.to_nat max_events) mets)))), s') ∧
        ∀ key, s' !! key =
          (λ h, add_fills (Reset h)
                  (pass_fills key (processed tree max_events)
                                  (take (Z.to_nat max_events) mets)))
            <$> s !! key.
Proof.
  intros Hco Hwf Hok. rewrite analyse_events_unfold. unfold processed.
  destruct (returns_elim _ _ _
              (event_loop_fills_at tree mets max_events 0 0 _ Hco Hwf (hists_ok_Reset s Hok)))
    as (p & s' & -> & -> & Hs').
  rewrite Z.sub_0_r in *. exists s'. split; [done|].
  intros key. rewrite Hs', lookup_fmap. by destruct (s !! key).
Qed.

(** C10. The threshold is the constant 200 of the function body, whatever
    the arguments.  On a well-formed event and a dict with the filled
    observables, an event whose computed [met_et_GeV] is at least 200 is
    counted, whatever its jet multiplicity.  For a tree of such events, the
    count a call returns is the number of processed events (the first
    [max_events]) whose computed [met_et_GeV] is at least 200. *)
Theorem threshold_fixed_at_200 :
  met_thresh = 200%Z ∧
  (∀ (event : Event) (passed_cnt : Z) (met : R) (s : gmap string TH1F),
     total_met event = inr met → 200 <= met → well_formed event → hists_ok s →
     (loop_body event passed_cnt s).1 = inr (passed_cnt + 1)%Z) ∧
  (∀ (tree : list Event) (mets : list R) (max_events : Z) (s : gmap string TH1F),
     computed_mets tree mets → Forall well_formed tree → hists_ok s →
     (analyse_events tree max_events s).1 =
       inr (Z.of_nat (length (filter (λ met, 200 <= met)
                                (take (Z.to_nat max_events) mets))))).
Proof.
  split; [reflexivity|]. split.
  - intros event passed_cnt met s Hmet Hge Hwf Hok.
    destruct (returns_elim _ _ _ (loop_body_fills_at event passed_cnt met s Hmet Hwf Hok))
      as (p & s' & -> & -> & _).
    simpl. by rewrite decide_True.
  - intros tree mets max_events s Hco Hwf Hok.
    destruct (analyse_events_fills_at tree mets max_events s Hco Hwf Hok) as (s' & -> & _).
    reflexivity.
Qed.

(** X7. On a tree of well-formed events and a dict with the filled
    observables a call raises nothing.  With [mets] the values computed for
    [met_et_GeV], event by event, it returns the number of processed events
    whose value is at least the threshold, and it leaves under every key
    the histogram reset and then filled, in event order, with exactly the
    fills of the processed events: "total" once per event and "200GeVMET"
    once per event at or above the threshold in [cutflow], the computed
    value of every event in [met_et], and for the events at or above the
    threshold the jet multiplicity in [jet_n] and, with two or more jets,
    the pT (in GeV) and eta of the first two jets in the four jet
    histograms. *)
Theorem pass_contents
    (tree : list Event) (mets : list R) (max_events : Z) (s : gmap string TH1F) :
  computed_mets tree mets → Forall well_formed tree → hists_ok s →
  (analyse_events tree max_events s).1 =
    inr (Z.of_nat (length (filter reaches_threshold
                             (take (Z.to_nat max_events) mets)))) ∧
  ∀ key, (analyse_events tree max_events s).2 !! key =
    (λ h, add_fills (Reset h)
            (pass_fills key (processed tree max_events)
                            (take (Z.to_nat max_events) mets)))
      <$> s !! key.
Proof.
  intros Hco Hwf Hok.
  destruct (analyse_events_fills_at tree mets max_events s Hco Hwf Hok) as (s' & -> & Hs').
  done.
Qed.

End ComputedPass.

(** *** One event within a call *)

Section EventInPass.

Context {V : Type} `{!LorentzVector V}.

(** The loop over a tree in two parts: when the first part is processed
    whole and raises nothing, the loop goes on with the second part from
    the count, the event counter and the dict the first part left. *)
Lemma event_loop_app (before after : list Event) (max_events passed_cnt evt_cnt : Z)
    s passed_cnt1 s1 :
  event_loop before max_events passed_cnt evt_cnt s = (inr passed_cnt1, s1) →
  (evt_cnt + Z.of_nat (length before) ≤ max_events)%Z →
  event_loop (before ++ after) max_events passed_cnt evt_cnt s =
  event_loop after max_events passed_cnt1 (evt_cnt + Z.of_nat (length before)) s1.
Proof.
  revert passed_cnt evt_cnt s.
  induction before as [|event before IH]; intros passed_cnt evt_cnt s Hbefore Hcap.
  - simpl in *. injection Hbefore as -> ->. by rewrite Z.add_0_r.
  - simpl in Hbefore, Hcap. cbn [app event_loop].
    rewrite decide_False in Hbefore |- * by lia.
    unfold bind in *.
    destruct (loop_body event passed_cnt s) as [[e|p1] s'] eqn:E; [done|].
    rewrite (IH _ _ _ Hbefore) by lia. f_equal. simpl. lia.
Qed.

(** C8. Within a call, take an event whose computed [met_et_GeV] is at or
    above the threshold and which has fewer than two jets, processed after
    the events [before] have left the count [passed_cnt] and the dict [s1]
    (which has [cutflow], [met_et] and [jet_n]).  The call goes on with the
    events after it from the count [passed_cnt + 1] and from the dict [s1]
    in which [cutflow] has received the fills "total" and "200GeVMET" (each
    bucket grows by 1), [met_et] has received the computed value (one more
    entry), [jet_n] has received the jet multiplicity, and every other
    histogram, the four jet-kinematic ones among them, is as it was.  When
    the event is the last one, this count and this dict are the result of
    the call. *)
Theorem above_threshold_few_jets
    (before after : list Event) (event : Event) (max_events passed_cnt : Z) (met : R)
    (s s1 : gmap string TH1F) (h_cutflow h_met h_jet_n : TH1F) :
  analyse_events before max_events s = (inr passed_cnt, s1) →
  (Z.of_nat (length before) < max_events)%Z →
  total_met event = inr met → IZR met_thresh <= met → (jet_n event < 2)%nat →
  s1 !! "cutflow" = Some h_cutflow → s1 !! "met_et" = Some h_met →
  s1 !! "jet_n" = Some h_jet_n →
  let h_cutflow' := FillL (FillL h_cutflow "total" 1) "200GeVMET" 1 in
  let h_met' := Fill h_met met in
  let h_jet_n' := Fill h_jet_n (INR (jet_n event)) in
  let s1' := <["jet_n" := h_jet_n']> (<["cutflow" := h_cutflow']> (<["met_et" := h_met']> s1)) in
  analyse_events (before ++ event :: after) max_events s =
    event_loop after max_events (passed_cnt + 1) (Z.of_nat (length before) + 1) s1' ∧
  analyse_events (before ++ [event]) max_events s = (inr (passed_cnt + 1)%Z, s1') ∧
  h_fills h_cutflow' =
    h_fills h_cutflow ++ [FillLabel "total" 1; FillLabel "200GeVMET" 1] ∧
  label_content "total" h_cutflow' = label_content "total" h_cutflow + 1 ∧
  label_content "200GeVMET" h_cutflow' = label_content "200GeVMET" h_cutflow + 1 ∧
  h_fills h_met' = h_fills h_met ++ [FillValue met] ∧
  GetEntries h_met' = S (GetEntries h_met) ∧
  h_fills h_jet_n' = h_fills h_jet_n ++ [FillValue (INR (jet_n event))] ∧
  (∀ key, key ∈ jet_kinematic_names → s1' !! key = s1 !! key) ∧
  (∀ key, key ∉ ["cutflow"; "met_et"; "jet_n"] → s1' !! key = s1 !! key).
Proof.
  intros Hbefore Hcap Hmet Hge Hjets Hc Hm Hn h_cutflow' h_met' h_jet_n' s1'.
  rewrite analyse_events_unfold in Hbefore.
  assert (Hbody : ∀ p, loop_body event p s1 = (inr (p + 1)%Z, s1')).
  { intros p. rewrite (loop_body_above_few_jets event p met s1 Hmet Hge Hjets).
    unfold bind.
    rewrite (FillL_at_Some _ _ _ _ _ Hc).
    erewrite Fill_at_Some by (rewrite lookup_insert_ne by done; exact Hm).
    erewrite FillL_at_Some by (rewrite lookup_insert_ne by done; apply lookup_insert_eq).
    erewrite Fill_at_Some by (rewrite !lookup_insert_ne by done; exact Hn).
    cbn [ret]. f_equal. subst s1' h_cutflow' h_met' h_jet_n'.
    f_equal. rewrite (insert_insert_ne _ "met_et" "cutflow") by done.
    by rewrite insert_insert_eq. }
  assert (Hstep : ∀ rest,
            analyse_events (before ++ event :: rest) max_events s =
            event_loop rest max_events (passed_cnt + 1)
                       (Z.of_nat (length before) + 1) s1').
  { intros rest. rewrite analyse_events_unfold.
    rewrite (event_loop_app before (event :: rest) max_events 0 0 _ _ _ Hbefore) by lia.
    cbn [event_loop]. rewrite decide_False by lia.
    unfold bind. rewrite Hbody. f_equal. }
  assert (Hframe : ∀ key, key ∉ ["cutflow"; "met_et"; "jet_n"] → s1' !! key = s1 !! key).
  { intros key Hkey. subst s1'.
    rewrite !not_elem_of_cons in Hkey. destruct Hkey as (? & ? & ? & _).
    by rewrite !lookup_insert_ne. }
  split; [apply Hstep|]. split; [by rewrite Hstep|].
  split; [subst h_cutflow'; simpl; by rewrite <- app_assoc|].
  split; [subst h_cutflow'; rewrite !label_content_FillL; simpl; lra|].
  split; [subst h_cutflow'; rewrite !label_content_FillL; simpl; lra|].
  split; [reflexivity|].
  split; [subst h_met'; unfold GetEntries, Fill; simpl; rewrite length_app; simpl; lia|].
  split; [reflexivity|].
  split; [|exact Hframe].
  intros key Hkey. apply Hframe.
  apply jet_kinematic_filled in Hkey as (_ & Hc' & Hm' & Hn').
  rewrite !not_elem_of_cons. repeat split; [done.. | apply not_elem_of_nil].
Qed.

(** What the two analysis cells compute on a non-empty tree. *)
Lemma analyse_mc_signal_result (tree : list Event) (mets : list R) (XSection : R) s :
  tree ≠ [] → computed_mets tree mets → Forall well_formed tree → hists_ok s →
  analyse_mc_signal tree XSection s =
    (inr (INR (length (filter reaches_threshold mets)) * (XSection * fb)),
     (analyse_events tree (Z.of_nat (length tree)) s).2).
Proof.
  intros Hne Hco Hwf Hok. unfold analyse_mc_signal, bind at 1, lift.
  rewrite py_truediv_self by (destruct tree; [done | simpl; lia]).
  unfold bind.
  destruct (analyse_events_fills_at tree mets (Z.of_nat (length tree)) s Hco Hwf Hok)
    as (s' & -> & _).
  rewrite Nat2Z.id, take_ge by (rewrite (computed_mets_length tree mets Hco); lia).
  unfold ret. cbn [snd]. do 2 f_equal.
  rewrite <- INR_IZR_INZ. lra.
Qed.

Lemma analyse_background_data_result (tree : list Event) (mets : list R) s :
  tree ≠ [] → computed_mets tree mets → Forall well_formed tree → hists_ok s →
  analyse_background_data tree s =
    (inr (INR (length (filter reaches_threshold mets)) * 18),
     (analyse_events tree (Z.of_nat (length tree)) s).2).
Proof.
  intros Hne Hco Hwf Hok. unfold analyse_background_data, bind at 1, lift.
  rewrite py_truediv_self by (destruct tree; [done | simpl; lia]).
  unfold bind.
  destruct (analyse_events_fills_at tree mets (Z.of_nat (length tree)) s Hco Hwf Hok)
    as (s' & -> & _).
  rewrite Nat2Z.id, take_ge by (rewrite (computed_mets_length tree mets Hco); lia).
  unfold ret. cbn [snd]. do 2 f_equal.
  rewrite <- INR_IZR_INZ. lra.
Qed.

(** X10. On a non-empty tree of well-formed events and a dict with the
    filled observables, the two cells process every event with a scale
    factor of 1.  With [mets] the values computed for [met_et_GeV], event
    by event, and [n] the number of them at or above the threshold,
    [signal] is [n] times [XSection * fb] and [background] is [n] times 18;
    the dict is the one [analyse_events] leaves with the number of entries
    as cap. *)
Theorem analysis_cells_yields
    (tree : list Event) (mets : list R) (XSection : R) (s : gmap string TH1F) :
  tree ≠ [] → computed_mets tree mets → Forall well_formed tree → hists_ok s →
  analyse_mc_signal tree XSection s =
    (inr (INR (length (filter reaches_threshold mets)) * (XSection * (1 / 1000))),
     (analyse_events tree (Z.of_nat (length tree)) s).2) ∧
  analyse_background_data tree s =
    (inr (INR (length (filter reaches_threshold mets)) * 18),
     (analyse_events tree (Z.of_nat (length tree)) s).2).
Proof.
  intros Hne Hco Hwf Hok. split.
  - by apply analyse_mc_signal_result.
  - by apply analyse_background_data_result.
Qed.

(** X11. From the background tree to the verdict.  With [mets] the values
    computed for [met_et_GeV] on a non-empty well-formed tree and [n] the
    number of them at or above the threshold, [background] is [18 n]; the
    trigger is affordable exactly when [n <= 399]; with [n = 0] the final
    cell raises [ZeroDivisionError] whatever the signal, and with [n > 0]
    it prints its report. *)
Theorem background_count_decides_verdict
    (tree : list Event) (mets : list R) (s : gmap string TH1F) :
  tree ≠ [] → computed_mets tree mets → Forall well_formed tree → hists_ok s →
  ∃ background,
    (analyse_background_data tree s).1 = inr background ∧
    background = INR (length (filter reaches_threshold mets)) * 18 ∧
    (affordability (reduction background) = CanAfford ↔
       (length (filter reaches_threshold mets) ≤ 399)%nat) ∧
    (length (filter reaches_threshold mets) = 0%nat →
       ∀ signal, final_results signal background = inl ZeroDivisionError) ∧
    ((0 < length (filter reaches_threshold mets))%nat →
       ∀ signal, ∃ report, final_results signal background = inr report ∧
                           rep_verdict report = affordability (reduction background)).
Proof.
  intros Hne Hco Hwf Hok.
  rewrite (analyse_background_data_result tree mets s Hne Hco Hwf Hok).
  eexists. split; [reflexivity|]. split; [reflexivity|].
  set (n := length (filter reaches_threshold mets)).
  assert (HnR : INR n = IZR (Z.of_nat n)) by apply INR_IZR_INZ.
  split; [|split].
  - unfold affordability, reduction.
    destruct (Rgt_dec (INR n * 18 / 51336) (14 / 100)) as [Hgt|Hle]; split; try done.
    + intros Hn. assert (H399 : (Z.of_nat n ≤ 399)%Z) by lia.
      apply IZR_le in H399. lra.
    + intros _. destruct (decide (n ≤ 399)%nat) as [|Hbig]; [done|].
      assert (H400 : (400 ≤ Z.of_nat n)%Z) by lia. apply IZR_le in H400. lra.
  - intros Hzero signal. rewrite Hzero. simpl.
    unfold final_results, significance, math_sqrt, py_div.
    rewrite !Rmult_0_l. destruct (Rlt_dec 0 0) as [Hlt|_]; [lra|]. simpl.
    rewrite sqrt_0. by destruct (Req_dec_T 0 0).
  - intros Hpos signal.
    assert (Hb : 0 < INR n * 18).
    { apply lt_INR in Hpos. simpl in Hpos. lra. }
    unfold final_results.
    destruct (significance_ok signal (INR n * 18) Hb) as [sig ->]. simpl. eauto.
Qed.

End EventInPass.

(** *** The verdict of the final cell *)

(** C5, as the code behaves.  [reduction] is [background / 51336].  With [r]
    the value computed for it, the verdict is "can afford" exactly when
    [r <= 0.14]: so when [r] is 0.14 itself, and not for any larger [r].
    The cell prints [r] and this verdict when it gets there, which it does
    for every positive background; for a background that is zero or
    negative the significance raises first and no verdict is printed. *)
Theorem affordable_iff_reduction_le (signal background r : R) :
  reduction background = r →
  reduction background = background / 51336 ∧
  (affordability r = CanAfford ↔ r <= 14 / 100) ∧
  (r = 14 / 100 → affordability r = CanAfford) ∧
  (14 / 100 < r → affordability r = CannotAfford) ∧
  (∀ report, final_results signal background = inr report →
     rep_reduction report = r ∧ rep_verdict report = affordability r) ∧
  (0 < background → ∃ report, final_results signal background = inr report) ∧
  (background <= 0 → ∃ e, final_results signal background = inl e).
Proof.
  intros Hr.
  assert (Hiff : affordability r = CanAfford ↔ r <= 14 / 100).
  { unfold affordability.
    destruct (Rgt_dec r (14 / 100)); split; intros; [done | lra | lra | done]. }
  split; [reflexivity|]. split; [exact Hiff|].
  split; [intros ->; apply Hiff; lra|].
  split.
  { intros Hgt. unfold affordability.
    destruct (Rgt_dec r (14 / 100)) as [_|Hle]; [done | lra]. }
  split.
  { intros report. unfold final_results.
    destruct (significance signal background) as [e|sig]; [done|].
    simpl. intros [= <-]. simpl. by rewrite Hr. }
  split.
  { intros Hpos. unfold final_results.
    destruct (significance_ok signal background Hpos) as [sig ->]. simpl. eauto. }
  intros Hle. unfold final_results, significance, math_sqrt, py_div.
  destruct (Rlt_dec (background * lumi_factor) 0) as [Hneg|Hnn]; [simpl; eauto|].
  assert (Hzero : background * lumi_factor = 0) by (unfold lumi_factor in *; lra).
  rewrite Hzero. simpl. rewrite sqrt_0.
  destruct (Req_dec_T 0 0) as [_|Hne]; [simpl; eauto | done].
Qed.

(** C5 as the specification words it fails at a background of zero: the
    reduction is 0, below 0.14, and the cell raises [ZeroDivisionError]
    instead of reporting that the trigger is affordable. *)
Lemma no_verdict_at_zero_background :
  reduction 0 <= 14 / 100 ∧
  final_results 10 0 = inl ZeroDivisionError ∧
  ¬ (∀ signal background, reduction background <= 14 / 100 →
       ∃ report, final_results signal background = inr report ∧
                 rep_verdict report = CanAfford).
Proof.
  assert (Hraise : final_results 10 0 = inl ZeroDivisionError).
  { unfold final_results, significance, math_sqrt, py_div.
    rewrite Rmult_0_l. destruct (Rlt_dec 0 0) as [Hlt|_]; [lra|]. simpl.
    rewrite sqrt_0. by destruct (Req_dec_T 0 0). }
  assert (Hred : reduction 0 <= 14 / 100) by (unfold reduction; lra).
  split; [exact Hred|]. split; [exact Hraise|].
  intros Hclaim. destruct (Hclaim 10 0 Hred) as (report & Hrep & _).
  rewrite Hraise in Hrep. discriminate.
Qed.

(** *** The restated properties at concrete inputs *)

Lemma total_met_event_dijet : total_met event_dijet = inr 250.
Proof.
  rewrite <- effective_met_event_dijet. apply total_met_effective; simpl; lia.
Qed.

Lemma computed_mets_example_tree : computed_mets example_tree example_mets.
Proof.
  repeat constructor.
  - exact total_met_event_cancel.
  - exact total_met_event_dijet.
  - exact total_met_event_met250.
Qed.

Lemma filter_example_mets : filter reaches_threshold example_mets = [250; 250].
Proof.
  unfold example_mets.
  assert (H0 : ¬ reaches_threshold 0) by (unfold reaches_threshold, met_thresh; lra).
  assert (H250 : reaches_threshold 250) by (unfold reaches_threshold, met_thresh; lra).
  rewrite (filter_cons_False _ _ _ H0).
  rewrite (filter_cons_True _ _ _ H250).
  by rewrite (filter_cons_True _ _ _ H250).
Qed.

Lemma affordable_iff_reduction_le_witness :
  reduction 7187 = 7187 / 51336 ∧
  affordability (7187 / 51336) = CanAfford ∧
  ∃ report, final_results 10 7187 = inr report ∧ rep_verdict report = CanAfford.
Proof.
  assert (Hr : reduction 7187 = 7187 / 51336) by reflexivity.
  assert (Hle : 7187 / 51336 <= 14 / 100) by lra.
  assert (Hpos : 0 < 7187) by lra.
  destruct (affordable_iff_reduction_le 10 7187 (7187 / 51336) Hr)
    as (_ & Hiff & _ & _ & Hcell & Hreach & _).
  pose proof (proj2 Hiff Hle) as Hcan.
  split; [exact Hr|]. split; [exact Hcan|].
  destruct (Hreach Hpos) as [report Hrep].
  exists report. split; [exact Hrep|].
  destruct (Hcell report Hrep) as [_ Hv]. by rewrite Hv.
Defined.

Lemma threshold_fixed_at_200_witness :
  total_met event_dijet = inr 250 ∧ 200 <= 250 ∧
  well_formed event_dijet ∧ hists_ok get_histograms ∧
  computed_mets example_tree example_mets ∧ Forall well_formed example_tree ∧
  (loop_body (V := TLorentzVector) event_dijet 0 get_histograms).1 = inr 1%Z ∧
  (analyse_events (V := TLorentzVector) example_tree 5 get_histograms).1 =
    inr (Z.of_nat (length (filter (λ met, 200 <= met) (take (Z.to_nat 5) example_mets)))).
Proof.
  assert (Hge : 200 <= 250) by lra.
  destruct (threshold_fixed_at_200 (V := TLorentzVector)) as (_ & Hevent & Hpass).
  split; [exact total_met_event_dijet|]. split; [exact Hge|].
  split; [exact well_formed_event_dijet|]. split; [exact get_histograms_ok|].
  split; [exact computed_mets_example_tree|]. split; [exact well_formed_example_tree|].
  split.
  - exact (Hevent event_dijet 0%Z 250 get_histograms total_met_event_dijet Hge
             well_formed_event_dijet get_histograms_ok).
  - exact (Hpass example_tree example_mets 5%Z get_histograms
             computed_mets_example_tree well_formed_example_tree get_histograms_ok).
Defined.

Lemma above_threshold_few_jets_witness :
  analyse_events (V := TLorentzVector) [] 5 get_histograms =
    (inr 0%Z, Reset <$> get_histograms) ∧
  (Z.of_nat (length ([] : list Event)) < 5)%Z ∧
  total_met event_met250 = inr 250 ∧ IZR met_thresh <= 250 ∧
  (jet_n event_met250 < 2)%nat ∧
  (analyse_events (V := TLorentzVector) ([] ++ [event_met250]) 5 get_histograms).1 =
    inr (0 + 1)%Z ∧
  (analyse_events (V := TLorentzVector) ([] ++ [event_met250]) 5 get_histograms).2
    !! "met_et" =
    Some (Fill (new_TH1F "h_met_et" "met_et; met ET [GeV]; events" 90 0 450) 250).
Proof.
  assert (Hbefore : analyse_events (V := TLorentzVector) [] 5 get_histograms =
                    (inr 0%Z, Reset <$> get_histograms)) by reflexivity.
  assert (Hcap : (Z.of_nat (length ([] : list Event)) < 5)%Z) by (simpl; lia).
  assert (Hge : IZR met_thresh <= 250) by (unfold met_thresh; lra).
  assert (Hjets : (jet_n event_met250 < 2)%nat) by (simpl; lia).
  pose proof (above_threshold_few_jets (V := TLorentzVector)
                [] [] event_met250 5 0 250 get_histograms (Reset <$> get_histograms)
                _ _ _ Hbefore Hcap total_met_event_met250 Hge Hjets
                eq_refl eq_refl eq_refl) as (_ & Hlast & _).
  split; [exact Hbefore|]. split; [exact Hcap|].
  split; [exact total_met_event_met250|]. split; [exact Hge|]. split; [exact Hjets|].
  rewrite Hlast. split; reflexivity.
Defined.

Lemma pass_contents_witness :
  computed_mets example_tree example_mets ∧
  Forall well_formed example_tree ∧ hists_ok get_histograms ∧
  (analyse_events (V := TLorentzVector) example_tree 5 get_histograms).1 = inr 2%Z.
Proof.
  split; [exact computed_mets_example_tree|].
  split; [exact well_formed_example_tree|]. split; [exact get_histograms_ok|].
  rewrite (proj1 (pass_contents (V := TLorentzVector) example_tree example_mets 5
                    get_histograms computed_mets_example_tree
                    well_formed_example_tree get_histograms_ok)).
  change (take (Z.to_nat 5) example_mets) with example_mets.
  by rewrite filter_example_mets.
Defined.

Lemma analysis_cells_yields_witness :
  example_tree ≠ [] ∧ computed_mets example_tree example_mets ∧
  Forall well_formed example_tree ∧ hists_ok get_histograms ∧
  (analyse_background_data (V := TLorentzVector) example_tree get_histograms).1 =
    inr (INR (length (filter reaches_threshold example_mets)) * 18).
Proof.
  assert (Hne : example_tree ≠ []) by discriminate.
  split; [exact Hne|]. split; [exact computed_mets_example_tree|].
  split; [exact well_formed_example_tree|]. split; [exact get_histograms_ok|].
  destruct (analysis_cells_yields (V := TLorentzVector) example_tree example_mets 1
              get_histograms Hne computed_mets_example_tree
              well_formed_example_tree get_histograms_ok) as [_ ->].
  reflexivity.
Defined.

Lemma background_count_decides_verdict_witness :
  example_tree ≠ [] ∧ computed_mets example_tree example_mets ∧
  Forall well_formed example_tree ∧ hists_ok get_histograms ∧
  ∃ background,
    (analyse_background_data (V := TLorentzVector) example_tree get_histograms).1 =
      inr background ∧
    (affordability (reduction background) = CanAfford ↔
       (length (filter reaches_threshold example_mets) ≤ 399)%nat).
Proof.
  assert (Hne : example_tree ≠ []) by discriminate.
  split; [exact Hne|]. split; [exact computed_mets_example_tree|].
  split; [exact well_formed_example_tree|]. split; [exact get_histograms_ok|].
  destruct (background_count_decides_verdict (V := TLorentzVector) example_tree
              example_mets get_histograms Hne computed_mets_example_tree
              well_formed_example_tree get_histograms_ok)
    as (background & Hret & _ & Hiff & _).
  exists background. split; [exact Hret | exact Hiff].
Defined.
